(** * pyvmdstream: a shallow embedding of the command-streaming client,
      the session launcher and the example trajectory reader.

    Sources embedded here:
    - [src/pyvmdstream.py]: [VMDStream.draw_atomic], [VMDStream.set_colorscale],
      [VMDStream.close], [VMDStream.send], [vmdstart], [vmdstop];
    - [src/examples/draw_example.py]: [load_xyzfile].

    Python values are modelled as follows.
    - [float] and numpy float64 are IEEE binary64 numbers: Rocq's primitive
      floats, with the arithmetic the kernel implements.
    - Python [int] is [Z]; a numpy integer (int64) is a [Z] whose arithmetic
      wraps around, written out with [wrap64].
    - [str] is [string]; text is built with [++] from literals, [nl] and [dq].
    - an exception is a constructor of [pyexn]; a call that may raise
      returns a [result].
    - the socket is the chronological list of what was done to it
      ([sock_event]); a method that writes to it is a state transformer. *)

From Stdlib Require Import String Ascii DecimalString.
From Stdlib Require Import ZArith Bool Lia PeanoNat List.
From Stdlib Require Import Floats.
Import ListNotations.

Local Open Scope string_scope.
Local Open Scope list_scope.
Local Open Scope Z_scope.

(* ================================================================== *)
(** * Part I. Definitions *)
(* ================================================================== *)

(** ** Text *)

(** The newline character, written [\n] in the source. *)
Definition nl : string := String (ascii_of_nat 10) EmptyString.

(** The double quote, as in [draw material "HardPlastic"]. *)
Definition dq : string := String (ascii_of_nat 34) EmptyString.

(** Python's [%i] for an integer: decimal digits, a minus sign when
    negative. *)
Definition pct_i (z : Z) : string := NilZero.string_of_int (Z.to_int z).

(** [n] copies of the digit zero. *)
Fixpoint zeros (n : nat) : string :=
  match n with
  | O => EmptyString
  | S n' => String "0"%char (zeros n')
  end.

(** The decimal digits of [q], left-padded with zeros to [p] digits. *)
Definition pad_digits (p : nat) (q : Z) : string :=
  let s := pct_i q in
  (zeros (p - String.length s) ++ s)%string.

(** [n / d] rounded to the nearest integer, ties to the even one
    ([0 <= n], [0 < d]). *)
Definition round_half_even (n d : Z) : Z :=
  let q := n / d in
  match (2 * (n mod d)) ?= d with
  | Lt => q
  | Gt => q + 1
  | Eq => if Z.even q then q else q + 1
  end.

(** A fixed-point rendering with [p] decimals of the magnitude
    [q / 10^p], with its sign. *)
Definition dec_fixed (p : nat) (neg : bool) (q : Z) : string :=
  let unit := 10 ^ Z.of_nat p in
  ((if neg then "-" else "") ++ pct_i (q / unit) ++
   match p with
   | O => ""
   | _ => "." ++ pad_digits p (q mod unit)
   end)%string.

(** Python's [%.pf] for a float: the exact binary value rounded to [p]
    decimals, ties to even; [nan] and [inf] by name. *)
Definition pct_prec_f (p : nat) (x : float) : string :=
  match Prim2SF x with
  | S754_nan => "nan"
  | S754_infinity s => if s then "-inf" else "inf"
  | S754_zero s => dec_fixed p s 0
  | S754_finite s m e =>
      let unit := 10 ^ Z.of_nat p in
      dec_fixed p s
        (if 0 <=? e then Zpos m * 2 ^ e * unit
         else round_half_even (Zpos m * unit) (2 ^ (- e)))
  end.

(** [%f] is [%.6f]; [%0.3f] is [%.3f]. *)
Definition pct_f : float -> string := pct_prec_f 6.
Definition pct_03f : float -> string := pct_prec_f 3.

(** ** Numbers *)

(** Python's [float(i)] and numpy's conversion of an integer to float64:
    the nearest binary64 number.  (An integer beyond the float range, for
    which Python raises, gives [infinity] here; no loop of this program
    gets that far.) *)
Definition float_of_int (z : Z) : float :=
  SF2Prim (binary_normalize prec emax z 0 false).

Definition int64_min : Z := - 2 ^ 63.
Definition int64_max : Z := 2 ^ 63 - 1.

(** Arithmetic on numpy's int64 wraps around. *)
Definition wrap64 (z : Z) : Z := (z + 2 ^ 63) mod 2 ^ 64 - 2 ^ 63.

(** [np.array(np.floor(x), dtype=int)] on one element: the largest
    integer not above [x].  A [nan], an infinity or a value outside int64
    converts to the smallest int64, as the C cast does on x86-64. *)
Definition floor_to_int (x : float) : Z :=
  match Prim2SF x with
  | S754_zero _ => 0
  | S754_finite s m e =>
      let v := Z.shiftl (if s then Zneg m else Zpos m) e in
      if (int64_min <=? v) && (v <=? int64_max) then v else int64_min
  | _ => int64_min
  end.

(** These are hard coded values from vmd version 1.9 *)
Definition VMDSTARTCOLOR : Z := 33.
Definition VMDNCOLORS : Z := 1024.

(** ** Exceptions and results *)

Inductive pyexn : Type :=
| IndexError
| TypeError
| ValueError
| AttributeError
| MemoryError
| OverflowError
| SocketError (errno : Z).

Inductive result (A : Type) : Type :=
| Ok (a : A)
| Raise (e : pyexn).

Arguments Ok {A} a.
Arguments Raise {A} e.

(** ** The socket and the methods that write to it *)

(** What a program does to its socket, in the order it does it. *)
Inductive sock_event : Type :=
| EvSend (data : string)
| EvClose.

(** A socket object: whether a [connect] on it succeeded, and what was
    done to it since. *)
Record sock : Type := {
  connected : bool;
  log : list sock_event
}.

(** The socket [socket.socket(...)] returns. *)
Definition new_socket (c : bool) : sock := {| connected := c; log := [] |}.

Definition is_close (ev : sock_event) : bool :=
  match ev with
  | EvClose => true
  | EvSend _ => false
  end.

(** A socket is closed once [close] was called on it. *)
Definition closed (s : sock) : bool := existsb is_close (log s).

(** The open end of a session: connected and not closed. *)
Definition usable (s : sock) : bool := connected s && negb (closed s).

Definition record_event (ev : sock_event) (s : sock) : sock :=
  {| connected := connected s; log := log s ++ [ev] |}.

(** The socket after the chunks [lines] were written to it, in order. *)
Definition after_sends (s : sock) (lines : list string) : sock :=
  {| connected := connected s; log := log s ++ map EvSend lines |}.

(** The chunks written in a log, oldest first. *)
Fixpoint sent (l : list sock_event) : list string :=
  match l with
  | [] => []
  | EvSend d :: l' => d :: sent l'
  | EvClose :: l' => sent l'
  end.

(** A statement sequence acting on the socket: it returns or raises, and
    leaves the socket with the events it added. *)
Definition IO (A : Type) : Type := sock -> result A * sock.

Definition ret {A : Type} (a : A) : IO A := fun s => (Ok a, s).

Definition raise {A : Type} (e : pyexn) : IO A := fun s => (Raise e, s).

Definition bind {A B : Type} (m : IO A) (k : A -> IO B) : IO B :=
  fun s =>
    match m s with
    | (Ok a, s') => k a s'
    | (Raise e, s') => (Raise e, s')
    end.

Declare Scope io_scope.
Delimit Scope io_scope with io.
Notation "x <- m ;; k" := (bind m (fun x => k))
  (at level 61, m at next level, right associativity) : io_scope.
Notation "m ;; k" := (bind m (fun _ => k))
  (at level 61, right associativity) : io_scope.
Local Open Scope io_scope.

(** Bad file descriptor: what a closed socket answers.  Broken pipe:
    what Linux answers to a write on a stream socket that is not
    connected. *)
Definition EBADF : Z := 9.
Definition EPIPE : Z := 32.

(** [s.send(data)] on a blocking socket: the whole chunk is written,
    unless the socket is closed or not connected, and then the call
    raises. *)
Definition send (data : string) : IO unit :=
  fun s =>
    if closed s then (Raise (SocketError EBADF), s)
    else if connected s then (Ok tt, record_event (EvSend data) s)
    else (Raise (SocketError EPIPE), s).

(** [s.close()]. *)
Definition close : IO unit := fun s => (Ok tt, record_event EvClose s).

(** A [for] loop over a list. *)
Fixpoint for_each {A : Type} (l : list A) (body : A -> IO unit) : IO unit :=
  match l with
  | [] => ret tt
  | x :: l' => body x ;; for_each l' body
  end.

(** Subscripting a list or a numpy array: an index from [-len] to
    [len - 1] is valid, a negative one counts from the end; any other
    raises [IndexError]. *)
Definition np_get {A : Type} (l : list A) (i : Z) : option A :=
  let n := Z.of_nat (length l) in
  if (0 <=? i) && (i <? n) then nth_error l (Z.to_nat i)
  else if (- n <=? i) && (i <? 0) then nth_error l (Z.to_nat (n + i))
  else None.

Definition subscript {A : Type} (l : list A) (i : Z) : IO A :=
  match np_get l i with
  | Some x => ret x
  | None => raise IndexError
  end.

(** Subscripting [atomtypes], which may be [None]: [None[i]] is a
    [TypeError]. *)
Definition subscript_opt {A : Type} (o : option (list A)) (i : Z) : IO A :=
  match o with
  | Some l => subscript l i
  | None => raise TypeError
  end.

(** ** [VMDStream.draw_atomic] *)

Definition point : Type := float * float * float.

(** The arguments of [draw_atomic], [None] for an optional one left
    out.  [configuration] is the (N,3) array, one row per particle. *)
Record draw_args : Type := {
  configuration : list point;
  atomtypes : option (list Z);
  default_radius : float;
  radii : option (list float);
  radius_list : option (list float);
  color_list : option (list Z);
  color_value_list : option (list float);
  sphere_resolution : Z;
  connecting_segments_types : option (list Z);
  bond_list : option (list (Z * Z));
  cylinder_radius_fraction : float;
  reset_view : bool
}.

(** The call [draw_atomic(configuration)]: every other argument at its
    default. *)
Definition default_args (conf : list point) : draw_args := {|
  configuration := conf;
  atomtypes := None;
  default_radius := 0.5%float;
  radii := None;
  radius_list := None;
  color_list := None;
  color_value_list := None;
  sphere_resolution := 30;
  connecting_segments_types := None;
  bond_list := None;
  cylinder_radius_fraction := 0.5%float;
  reset_view := true
|}.

Definition fmt_draw_color (c : Z) : string :=
  ("draw color " ++ pct_i c ++ nl)%string.

Definition fmt_point (p : point) : string :=
  let '(x, y, z) := p in
  ("{" ++ pct_f x ++ " " ++ pct_f y ++ " " ++ pct_f z ++ "}")%string.

Definition fmt_draw_sphere (p : point) (radius : float) (res : Z) : string :=
  ("draw sphere " ++ fmt_point p ++ " radius " ++ pct_f radius ++
   " resolution " ++ pct_i res ++ nl)%string.

Definition fmt_draw_cylinder (p q : point) (radius : float) (res : Z)
  : string :=
  ("draw cylinder " ++ fmt_point p ++ " " ++ fmt_point q ++ " radius " ++
   pct_f radius ++ " resolution " ++ pct_i res ++ " filled yes" ++ nl)%string.

(** The six lines of the initial setup (lines 139-144). *)
Definition setup_lines : list string :=
  [ ("axes location off" ++ nl)%string;
    ("display projection orthographic" ++ nl)%string;
    ("display resize 800 800" ++ nl)%string;
    ("draw delete all" ++ nl)%string;
    ("draw materials on" ++ nl)%string;
    ("draw material " ++ dq ++ "HardPlastic" ++ dq ++ nl)%string ].

(** The two lines sent when [reset_view is True] (lines 186-187). *)
Definition reset_lines : list string :=
  [ ("display resetview" ++ nl)%string; ("scale by 1.3" ++ nl)%string ].

(** Lines 146-148: a given [color_value_list] replaces [color_list]. *)
Definition readjust_color_list (a : draw_args) : option (list Z) :=
  match color_value_list a with
  | Some values =>
      Some (map (fun v => floor_to_int (v * float_of_int VMDNCOLORS)%float)
                values)
  | None => color_list a
  end.

(** The [if color_list ... elif atomtypes ...] of lines 153-156, and
    again of lines 166-169. *)
Definition send_color (colors types : option (list Z)) (i : Z) : IO unit :=
  match colors with
  | Some cl =>
      c <- subscript cl i ;;
      send (fmt_draw_color (wrap64 (c + VMDSTARTCOLOR)))
  | None =>
      match types with
      | Some tl => t <- subscript tl i ;; send (fmt_draw_color t)
      | None => ret tt
      end
  end.

(** The [if radii ... elif radius_list ... else] of lines 157-162, and
    again of lines 171-176. *)
Definition choose_radius (a : draw_args) (i : Z) : IO float :=
  match radii a, atomtypes a with
  | Some r, Some tl => t <- subscript tl i ;; subscript r t
  | _, _ =>
      match radius_list a with
      | Some rl => subscript rl i
      | None => ret (default_radius a)
      end
  end.

(** One round of the loop over [bond_list] (lines 152-163). *)
Definition draw_bond (a : draw_args) (colors : option (list Z))
  (bond : Z * Z) : IO unit :=
  let '(i, j) := bond in
  send_color colors (atomtypes a) i ;;
  this_radius <- choose_radius a i ;;
  pi <- subscript (configuration a) i ;;
  pj <- subscript (configuration a) j ;;
  send (fmt_draw_cylinder pi pj
          (this_radius * cylinder_radius_fraction a)%float
          (sphere_resolution a)).

(** One round of the loop over [connecting_segments_types]
    (lines 181-182). *)
Definition draw_segment (a : draw_args) (i : Z) (this_radius : float)
  (connecting_segments_type : Z) : IO unit :=
  t <- subscript_opt (atomtypes a) i ;;
  if t =? connecting_segments_type then
    t' <- subscript_opt (atomtypes a) (i + 1) ;;
    if t' =? connecting_segments_type then
      pi <- subscript (configuration a) i ;;
      pj <- subscript (configuration a) (i + 1) ;;
      send (fmt_draw_cylinder pi pj
              (this_radius * cylinder_radius_fraction a)%float
              (sphere_resolution a))
    else ret tt
  else ret tt.

(** One round of the loop over the particles (lines 166-182). *)
Definition draw_particle (a : draw_args) (colors : option (list Z))
  (n : nat) : IO unit :=
  let i := Z.of_nat n in
  send_color colors (atomtypes a) i ;;
  this_radius <- choose_radius a i ;;
  pi <- subscript (configuration a) i ;;
  send (fmt_draw_sphere pi this_radius (sphere_resolution a)) ;;
  match connecting_segments_types a with
  | Some cst =>
      if i + 1 <? Z.of_nat (length (configuration a)) then
        for_each cst (draw_segment a i this_radius)
      else ret tt
  | None => ret tt
  end.

Definition draw_atomic (a : draw_args) : IO unit :=
  let natoms := length (configuration a) in
  for_each setup_lines send ;;
  let colors := readjust_color_list a in
  match bond_list a with
  | Some bl => for_each bl (draw_bond a colors)
  | None => ret tt
  end ;;
  for_each (seq 0 natoms) (draw_particle a colors) ;;
  if reset_view a then for_each reset_lines send else ret tt.

(** ** [VMDStream.set_colorscale] *)

(** [range(n)] of Python, as integers. *)
Definition range (n : Z) : list Z := map Z.of_nat (seq 0 (Z.to_nat n)).

Definition fmt_color_change (id : Z) (r g b : float) : string :=
  ("color change rgb " ++ pct_i id ++ " " ++ pct_03f r ++ " " ++
   pct_03f g ++ " " ++ pct_03f b ++ nl)%string.

(** A matplotlib colormap: called on a number from zero to one it returns
    red, green, blue and alpha intensities. *)
Definition colormap_obj : Type := float -> float * float * float * float.

Section Colorscale.

(** [cmap_discretize(N, cmap)] (lines 41-64) is a sequence of calls into
    matplotlib, which is not part of this repository: its outcome is
    taken as given, a colormap object or the exception matplotlib
    raises (an unknown colormap name, say). *)
Variable cmap_discretize : Z -> string -> result colormap_obj.

Definition set_colorscale (colormap : string) (ncolors startcolorid : Z)
  : IO unit :=
  if String.eqb colormap "" then
    send ("color scale method RGB" ++ nl)%string
  else
    match cmap_discretize ncolors colormap with
    | Raise e => raise e
    | Ok colors =>
        for_each (range ncolors) (fun i =>
          let color_frac := (float_of_int i / float_of_int ncolors)%float in
          let '(r, g, b, _) := colors color_frac in
          send (fmt_color_change (startcolorid + i) r g b))
    end.

End Colorscale.

(** ** [vmdstop], [VMDStream.close] and [VMDStream.send] *)

Definition vmdstop : IO unit :=
  send ("exit" ++ nl)%string ;;
  close.

Definition VMDStream_close : IO unit := vmdstop.

Definition VMDStream_send (sendstring : string) : IO unit := send sendstring.

(** ** [vmdstart] *)

(** An exception raised by [s.connect]: a [socket.error], which carries
    an attribute [errno] ([None] when the system gave no code), or an
    exception of another class (an [OverflowError] for a port outside
    0..65535, say), which has no such attribute. *)
Inductive connect_exn : Type :=
| SocketErr (errno : option Z)
| PlainErr (name : string).

Inductive connect_outcome : Type :=
| Connects
| Fails (e : connect_exn).

(** What [vmdstart] does to the world around it, in order. *)
Inductive launch_event : Type :=
| LWrite (path content : string)
| LPopen (cmd : string)
| LSleep (seconds : Z)
| LSocket
| LConnect (host : string) (port : Z) (o : connect_outcome)
| LPrint (e : connect_exn).

Section Launcher.

(** The text [ctl_script(port)] returns (lines 219-325): a fixed Tcl
    script with the port number filled in. *)
Variable ctl_script : Z -> string.

(** The code the system gives to a [connect] on a socket that is
    connected already (EISCONN): 106 on Linux, 56 on Darwin and the
    BSDs, 10056 on Windows. *)
Variable eisconn : Z.

(** What the [i]-th [connect] meets on the network when the socket is
    not connected yet. *)
Variable net : nat -> connect_outcome.

Definition try_connect (connected : bool) (i : nat) : connect_outcome :=
  if connected then Fails (SocketErr (Some eisconn)) else net i.

(** [e.errno == 106 or e.errno == 56] *)
Definition already_connected (errno : option Z) : bool :=
  match errno with
  | Some n => (n =? 106) || (n =? 56)
  | None => false
  end.

(** The [for i in range(5)] loop of lines 345-354, from the state
    [connected] of the socket. *)
Fixpoint connect_loop (port : Z) (attempts : list nat) (connected : bool)
  : result sock * list launch_event :=
  match attempts with
  | [] => (Ok (new_socket connected), [])
  | i :: rest =>
      let o := try_connect connected i in
      let ev := LConnect "127.0.0.1" port o in
      match o with
      | Connects =>
          let '(r, evs) := connect_loop port rest true in
          (r, ev :: LSleep 2 :: evs)
      | Fails (PlainErr _) => (Raise AttributeError, [ev])
      | Fails (SocketErr errno as e) =>
          if already_connected errno then
            (Ok (new_socket connected), [ev])
          else
            let '(r, evs) := connect_loop port rest connected in
            (r, ev :: LPrint e :: LSleep 2 :: evs)
      end
  end.

Definition vmdstart (command_script : string) (port : Z)
  : result sock * list launch_event :=
  let '(r, evs) := connect_loop port (seq 0 5) false in
  (r, LWrite command_script (ctl_script port)
      :: LPopen ("vmd -e " ++ command_script)%string
      :: LSleep 5
      :: LSocket
      :: evs).

End Launcher.


(** ** [load_xyzfile] (examples/draw_example.py) *)

(** *** Strings: [split], [int], [float] *)

(** A text is the text of the file as Python 3 decodes it, with
    characters below U+0100: a character is its code point. *)

(** The characters [str.split()] separates on, those [str.isspace()]
    holds of: tab, newline, vertical tab, form feed, carriage return
    (9 to 13), the four separators 28 to 31, the space, the next-line
    character 133 and the no-break space 160. *)
Definition is_space (c : ascii) : bool :=
  let n := nat_of_ascii c in
  (Nat.eqb n 32 || (Nat.leb 9 n && Nat.leb n 13) ||
   (Nat.leb 28 n && Nat.leb n 31) || Nat.eqb n 133 || Nat.eqb n 160)%bool.

(** [s.split()]: the maximal runs of characters that are not white
    space.  [cur] is the run being read. *)
Fixpoint split_from (cur : string) (s : string) : list string :=
  match s with
  | EmptyString =>
      match cur with
      | EmptyString => []
      | _ => [cur]
      end
  | String c s' =>
      if is_space c then
        match cur with
        | EmptyString => split_from EmptyString s'
        | _ => cur :: split_from EmptyString s'
        end
      else split_from (cur ++ String c EmptyString)%string s'
  end.

Definition str_split (s : string) : list string := split_from EmptyString s.

Definition digit_of (c : ascii) : option Z :=
  let n := nat_of_ascii c in
  if (Nat.leb 48 n && Nat.leb n 57)%bool then Some (Z.of_nat n - 48)
  else None.

(** The leading decimal digits of [s], and what follows them. *)
Fixpoint take_digits (s : string) : list Z * string :=
  match s with
  | EmptyString => ([], EmptyString)
  | String c s' =>
      match digit_of c with
      | Some d => let '(ds, rest) := take_digits s' in (d :: ds, rest)
      | None => ([], s)
      end
  end.

Definition digits_value (ds : list Z) : Z :=
  fold_left (fun acc d => 10 * acc + d) ds 0.

Definition is_digit (c : ascii) : bool :=
  match digit_of c with
  | Some _ => true
  | None => false
  end.

(** [int] and [float] take one underscore between two digits and drop
    it; an underscore anywhere else makes the text invalid.  [prev] is
    the character before. *)
Fixpoint drop_underscores (prev : option ascii) (s : string)
  : option string :=
  match s with
  | EmptyString => Some EmptyString
  | String c s' =>
      if Ascii.eqb c "_" then
        match prev, s' with
        | Some p, String d _ =>
            if (is_digit p && is_digit d)%bool then
              drop_underscores (Some c) s'
            else None
        | _, _ => None
        end
      else option_map (String c) (drop_underscores (Some c) s')
  end.

(** A leading sign: [true] for minus. *)
Definition take_sign (s : string) : bool * string :=
  match s with
  | String "-" s' => (true, s')
  | String "+" s' => (false, s')
  | _ => (false, s)
  end.

(** An optional sign and at least one digit, with the digits read. *)
Definition signed_digits (s : string) : option (bool * list Z) :=
  let '(neg, body) := take_sign s in
  match take_digits body with
  | ((_ :: _) as ds, EmptyString) => Some (neg, ds)
  | _ => None
  end.

Definition signed_value (neg : bool) (ds : list Z) : Z :=
  if neg then - digits_value ds else digits_value ds.

(** The most digits [int] converts
    ([sys.int_info.default_max_str_digits]). *)
Definition max_str_digits : Z := 4300.

(** [int(s)] on a token (no white space inside): an optional sign and at
    least one digit, underscores between digits apart, and no more
    digits than [int] converts; [None] stands for the [ValueError]. *)
Definition py_int (s : string) : option Z :=
  match drop_underscores None s with
  | Some plain =>
      match signed_digits plain with
      | Some (neg, ds) =>
          if max_str_digits <? Z.of_nat (length ds) then None
          else Some (signed_value neg ds)
      | None => None
      end
  | None => None
  end.

Definition lower_char (c : ascii) : ascii :=
  let n := nat_of_ascii c in
  if (Nat.leb 65 n && Nat.leb n 90)%bool then ascii_of_nat (n + 32) else c.

Fixpoint lower (s : string) : string :=
  match s with
  | EmptyString => EmptyString
  | String c s' => String (lower_char c) (lower s')
  end.

(** The binary64 number nearest to [m * 10^k] ([0 < m]), with sign
    [neg]. *)
Definition decimal_to_float (neg : bool) (m : positive) (k : Z) : float :=
  SF2Prim
    (match k with
     | Zneg p =>
         SFdiv prec emax (S754_finite neg m 0)
               (S754_finite false (Pos.pow 10 p) 0)
     | _ => binary_normalize prec emax
              (if neg then - (Zpos m * 10 ^ k) else Zpos m * 10 ^ k) 0 false
     end).

(** An exponent part: empty, or [e] or [E], an optional sign, digits. *)
Definition take_exponent (s : string) : option Z :=
  match s with
  | EmptyString => Some 0
  | String c s' =>
      if Ascii.eqb (lower_char c) "e" then
        match signed_digits s' with
        | Some (neg, ds) => Some (signed_value neg ds)
        | None => None
        end
      else None
  end.

(** [float(s)] on a token without underscores: [inf], [infinity] or
    [nan] in any case, or digits with an optional point and exponent,
    each with an optional sign, rounded to the nearest float. *)
Definition float_of_plain (s : string) : option float :=
  let '(neg, body) := take_sign s in
  let name := lower body in
  if (String.eqb name "inf" || String.eqb name "infinity")%bool then
    Some (if neg then neg_infinity else infinity)
  else if String.eqb name "nan" then Some nan
  else
    let '(ip, rest) := take_digits body in
    let '(fp, rest') :=
      match rest with
      | String "." r => take_digits r
      | _ => ([], rest)
      end in
    match ip ++ fp with
    | [] => None
    | ds =>
        match take_exponent rest' with
        | None => None
        | Some e =>
            Some match digits_value ds with
                 | Zpos m =>
                     decimal_to_float neg m (e - Z.of_nat (length fp))
                 | _ => if neg then neg_zero else zero
                 end
        end
    end.

(** [float(s)] on a token, underscores between digits apart; [None]
    stands for the [ValueError]. *)
Definition py_float (s : string) : option float :=
  match drop_underscores None s with
  | Some plain => float_of_plain plain
  | None => None
  end.

(** [np.array(tokens, dtype=float)]: every token converts, or the call
    raises. *)
Fixpoint floats_of (tokens : list string) : option (list float) :=
  match tokens with
  | [] => Some []
  | t :: ts =>
      match py_float t, floats_of ts with
      | Some x, Some xs => Some (x :: xs)
      | _, _ => None
      end
  end.

(** *** The file *)

(** The lines of a text as a file opened in text mode gives them: a
    line ends at a newline, at a carriage return, or at a carriage
    return followed by a newline, and is returned with a newline at its
    end in the three cases; the last one is the rest after the last
    line end, when there is one.  [cur] is the line being read, and
    [after_cr] tells that the character before was a carriage return,
    whose line is closed already. *)
Fixpoint lines_from (after_cr : bool) (cur : string) (text : string)
  : list string :=
  match text with
  | EmptyString =>
      match cur with
      | EmptyString => []
      | _ => [cur]
      end
  | String c text' =>
      if Ascii.eqb c (ascii_of_nat 10) then
        if after_cr then lines_from false cur text'
        else (cur ++ nl)%string :: lines_from false EmptyString text'
      else if Ascii.eqb c (ascii_of_nat 13) then
        (cur ++ nl)%string :: lines_from true EmptyString text'
      else lines_from false (cur ++ String c EmptyString)%string text'
  end.

(** An open file: the lines not read yet. *)
Definition file : Type := list string.

Definition open (text : string) : file :=
  lines_from false EmptyString text.

(** [fh.readline()]: the next line, or the empty string at the end. *)
Definition readline (fh : file) : string * file :=
  match fh with
  | [] => (EmptyString, [])
  | l :: fh' => (l, fh')
  end.

(** *** The reader *)

(** [l.index(x)] when [x in l]. *)
Fixpoint index_of (x : string) (l : list string) : option nat :=
  match l with
  | [] => None
  | y :: l' =>
      if String.eqb x y then Some O else option_map S (index_of x l')
  end.

(** Lines 56-60: the number of an atom type, and the list of labels
    after it was looked up. *)
Definition numeric_atomtype (atomtype : string) (labels : list string)
  : Z * list string :=
  match index_of atomtype labels with
  | Some k => (Z.of_nat k, labels)
  | None => (Z.of_nat (length labels), labels ++ [atomtype])
  end.

(** Lines 51 and 64: the five tokens of a particle line, and its
    position. *)
Definition parse_particle (line : string) : result (string * point) :=
  match firstn 5 (str_split line) with
  | [_atomid; atomtype; x; y; z] =>
      match py_float x, py_float y, py_float z with
      | Some fx, Some fy, Some fz => Ok (atomtype, (fx, fy, fz))
      | _, _, _ => Raise ValueError
      end
  | _ => Raise ValueError
  end.

(** The [for i in range(N)] loop of lines 49-66. *)
Fixpoint read_particles (n : nat) (fh : file) (labels : list string)
  : result (list point * list Z * file * list string) :=
  match n with
  | O => Ok ([], [], fh, labels)
  | S n' =>
      let '(line, fh1) := readline fh in
      match parse_particle line with
      | Raise e => Raise e
      | Ok (atomtype, pos) =>
          let '(t, labels1) := numeric_atomtype atomtype labels in
          match read_particles n' fh1 labels1 with
          | Raise e => Raise e
          | Ok (conf, types, fh2, labels2) =>
              Ok (pos :: conf, t :: types, fh2, labels2)
          end
      end
  end.

(** What [load_xyzfile] returns: [trajectory], [atomtype_list],
    [boxsize_list]. *)
Definition loaded : Type :=
  list (list point) * list (list Z) * list (list float).

(** Lines 47 and 48 make the two arrays of a frame before any particle
    line is read.  [np.zeros] raises [ValueError] for a negative count;
    otherwise it is the machine that tells: [zeros k N] is what goes
    wrong, if anything, when the arrays of frame [k] are made for [N]
    particles: no room ([MemoryError]), an array beyond the size numpy
    takes ([ValueError]), a count beyond the integers it takes
    ([OverflowError]). *)
Inductive alloc_error : Type :=
| OutOfMemory
| ArrayTooBig
| IntTooLarge.

Definition alloc_exn (a : alloc_error) : pyexn :=
  match a with
  | OutOfMemory => MemoryError
  | ArrayTooBig => ValueError
  | IntTooLarge => OverflowError
  end.

Definition allocator : Type := nat -> Z -> option alloc_error.

Definition np_zeros (zeros : allocator) (k : nat) (N : Z) : option pyexn :=
  if N <? 0 then Some ValueError else option_map alloc_exn (zeros k N).

(** The [while line:] loop of lines 46-74, from frame [k] on.  Every
    round reads at least one line when it goes on, so [fuel] above the
    number of lines left is never used up; [None] is a run out of
    fuel. *)
Fixpoint load_frames (zeros : allocator) (fuel : nat) (k : nat) (N : Z)
  (line : string) (fh : file) (labels : list string) (acc : loaded)
  : option (result loaded) :=
  match fuel with
  | O => None
  | S fuel' =>
      match line with
      | EmptyString => Some (Ok acc)
      | _ =>
          match np_zeros zeros k N with
          | Some e => Some (Raise e)
          | None =>
              match read_particles (Z.to_nat N) fh labels with
              | Raise e => Some (Raise e)
              | Ok (conf, types, fh1, labels1) =>
                  let '(line1, fh2) := readline fh1 in
                  match floats_of (str_split line1) with
                  | None => Some (Raise ValueError)
                  | Some boxsize =>
                      let '(trajectory, atomtype_list, boxsize_list) :=
                        acc in
                      let '(line2, fh3) := readline fh2 in
                      load_frames zeros fuel' (S k) N line2 fh3 labels1
                        (trajectory ++ [conf],
                         atomtype_list ++ [types],
                         boxsize_list ++ [boxsize])
                  end
              end
          end
      end
  end.

Definition load_xyzfile (zeros : allocator) (text : string)
  : option (result loaded) :=
  let fh := open text in
  let '(line, fh1) := readline fh in
  match str_split line with
  | [] => Some (Raise IndexError)
  | tok :: _ =>
      match py_int tok with
      | None => Some (Raise ValueError)
      | Some N =>
          load_frames zeros (S (length fh)) 0 N line fh1 [] ([], [], [])
      end
  end.

(* ================================================================== *)
(** * Part II. What the claims speak of *)
(* ================================================================== *)

(** ** Lines written by a method *)

(** [sends m r lines]: on every usable socket, [m] ends with [r] after
    writing exactly [lines], in order, and nothing else. *)
Definition sends {A : Type} (m : IO A) (r : result A) (lines : list string)
  : Prop :=
  forall s, usable s = true -> m s = (r, after_sends s lines).

(** Subscripting with a value to fall back on, for indices known to be
    valid. *)
Definition np_nth {A : Type} (d : A) (l : list A) (i : Z) : A :=
  match np_get l i with
  | Some x => x
  | None => d
  end.

Definition valid_index (n : nat) (i : Z) : Prop :=
  - Z.of_nat n <= i < Z.of_nat n.

(** An optional per-particle array, when given, has one entry per
    particle. *)
Definition covers {A : Type} (o : option (list A)) (n : nat) : Prop :=
  match o with
  | Some l => length l = n
  | None => True
  end.

(** The caller's side of [draw_atomic]: per-particle arrays have the
    length of [configuration] (of the two colour arrays, the one that is
    used), every type indexes [radii], every bond joins two particles. *)
Definition args_fit (a : draw_args) : Prop :=
  let n := length (configuration a) in
  covers (atomtypes a) n /\
  covers (radius_list a) n /\
  match color_value_list a with
  | Some values => length values = n
  | None => covers (color_list a) n
  end /\
  match radii a, atomtypes a with
  | Some r, Some tl => Forall (valid_index (length r)) tl
  | _, _ => True
  end /\
  match bond_list a with
  | Some bl =>
      Forall (fun b => valid_index n (fst b) /\ valid_index n (snd b)) bl
  | None => True
  end.

(** The connecting segments compare atom types: with a type to compare
    to and two particles or more, [atomtypes] has to be there. *)
Definition segments_typed (a : draw_args) : Prop :=
  match connecting_segments_types a with
  | Some (_ :: _) =>
      (2 <= length (configuration a))%nat -> atomtypes a <> None
  | _ => True
  end.

(** ** The precedence among the optional arguments, in the words of the
    specification *)

(** Where the colour of a particle comes from: continuous colour over
    discrete colour over type-based colour over none. *)
Inductive color_source : Type :=
| Continuous
| Discrete
| TypeBased
| NoColor.

(** Where the radius of a particle comes from: per-type radius over
    per-particle radius over the default radius. *)
Inductive radius_source : Type :=
| PerType
| PerParticle
| DefaultRadius.

Definition given {A : Type} (o : option A) : bool :=
  match o with
  | Some _ => true
  | None => false
  end.

(** The sources a call offers, highest precedence first. *)
Definition color_sources (a : draw_args) : list color_source :=
  (if given (color_value_list a) then [Continuous] else []) ++
  (if given (color_list a) then [Discrete] else []) ++
  (if given (atomtypes a) then [TypeBased] else []) ++
  [NoColor].

(** A per-type radius is keyed by the particle's type: it takes both
    [radii] and [atomtypes]. *)
Definition radius_sources (a : draw_args) : list radius_source :=
  (if given (radii a) && given (atomtypes a) then [PerType] else []) ++
  (if given (radius_list a) then [PerParticle] else []) ++
  [DefaultRadius].

Definition chosen_color (a : draw_args) : color_source :=
  hd NoColor (color_sources a).

Definition chosen_radius (a : draw_args) : radius_source :=
  hd DefaultRadius (radius_sources a).

Definition or_nil {A : Type} (o : option (list A)) : list A :=
  match o with
  | Some l => l
  | None => []
  end.

(** The colour id a continuous colour value stands for. *)
Definition continuous_color_id (v : float) : Z :=
  floor_to_int (v * float_of_int VMDNCOLORS)%float.

(** A colour value from zero to one. *)
Definition in_unit (v : float) : Prop :=
  (0 <=? v)%float = true /\ (v <=? 1)%float = true.

(** The floor of the exact product of a float by 1024: the float
    [(-1)^s * m * 2^e] gives the floor of [(-1)^s * m * 2^(e+10)]. *)
Definition exact_floor_scaled (v : float) : Z :=
  match Prim2SF v with
  | S754_finite s m e => Z.shiftl (if s then Zneg m else Zpos m) (e + 10)
  | _ => 0
  end.

(** The [draw color] line, if any, that a source gives particle [i]. *)
Definition color_line_from (a : draw_args) (src : color_source) (i : Z)
  : list string :=
  match src with
  | Continuous =>
      [fmt_draw_color
         (wrap64 (continuous_color_id
                    (np_nth 0%float (or_nil (color_value_list a)) i)
                  + VMDSTARTCOLOR))]
  | Discrete =>
      [fmt_draw_color
         (wrap64 (np_nth 0 (or_nil (color_list a)) i + VMDSTARTCOLOR))]
  | TypeBased => [fmt_draw_color (np_nth 0 (or_nil (atomtypes a)) i)]
  | NoColor => []
  end.

(** The radius a source gives particle [i]. *)
Definition radius_from (a : draw_args) (src : radius_source) (i : Z)
  : float :=
  match src with
  | PerType =>
      np_nth 0%float (or_nil (radii a)) (np_nth 0 (or_nil (atomtypes a)) i)
  | PerParticle => np_nth 0%float (or_nil (radius_list a)) i
  | DefaultRadius => default_radius a
  end.

Definition origin : point := (0%float, 0%float, 0%float).

Definition position (a : draw_args) (i : Z) : point :=
  np_nth origin (configuration a) i.

(** The cylinder from particle [i] to particle [j], as thick as the
    radius of [i] times the cylinder fraction. *)
Definition cylinder_line (a : draw_args) (i j : Z) : string :=
  fmt_draw_cylinder (position a i) (position a j)
    (radius_from a (chosen_radius a) i * cylinder_radius_fraction a)%float
    (sphere_resolution a).

(** The lines of one bond: its colour, its cylinder. *)
Definition bond_lines (a : draw_args) (b : Z * Z) : list string :=
  color_line_from a (chosen_color a) (fst b) ++
  [cylinder_line a (fst b) (snd b)].

(** The cylinders that connect particle [i] to the next one: one for
    every listed type that both have. *)
Definition segment_lines (a : draw_args) (i : Z) : list string :=
  if i + 1 <? Z.of_nat (length (configuration a)) then
    flat_map (fun t =>
                if (np_nth 0 (or_nil (atomtypes a)) i =? t) &&
                   (np_nth 0 (or_nil (atomtypes a)) (i + 1) =? t)
                then [cylinder_line a i (i + 1)] else [])
             (or_nil (connecting_segments_types a))
  else [].

Definition sphere_line (a : draw_args) (i : Z) : string :=
  fmt_draw_sphere (position a i) (radius_from a (chosen_radius a) i)
    (sphere_resolution a).

(** The lines of one particle: its colour, its sphere, its connecting
    segments. *)
Definition particle_lines (a : draw_args) (n : nat) : list string :=
  let i := Z.of_nat n in
  color_line_from a (chosen_color a) i ++ [sphere_line a i] ++
  segment_lines a i.

Definition bonds_part (a : draw_args) : list string :=
  flat_map (bond_lines a) (or_nil (bond_list a)).

Definition particles_part (a : draw_args) : list string :=
  flat_map (particle_lines a) (seq 0 (length (configuration a))).

Definition reset_part (a : draw_args) : list string :=
  if reset_view a then reset_lines else [].

(** ** Kinds of lines *)

(** [l.startswith(p)] *)
Fixpoint starts_with (p l : string) : bool :=
  match p, l with
  | EmptyString, _ => true
  | String _ _, EmptyString => false
  | String c p', String d l' => Ascii.eqb c d && starts_with p' l'
  end.

Definition is_color_line (l : string) : bool := starts_with "draw color " l.
Definition is_sphere_line (l : string) : bool :=
  starts_with "draw sphere " l.
Definition is_cylinder_line (l : string) : bool :=
  starts_with "draw cylinder " l.

Definition count_lines (p : string -> bool) (ls : list string) : nat :=
  length (filter p ls).

(** The call [a] with another [connecting_segments_types], and with
    another [color_list]. *)
Definition with_segments (a : draw_args) (cst : option (list Z))
  : draw_args := {|
  configuration := configuration a;
  atomtypes := atomtypes a;
  default_radius := default_radius a;
  radii := radii a;
  radius_list := radius_list a;
  color_list := color_list a;
  color_value_list := color_value_list a;
  sphere_resolution := sphere_resolution a;
  connecting_segments_types := cst;
  bond_list := bond_list a;
  cylinder_radius_fraction := cylinder_radius_fraction a;
  reset_view := reset_view a
|}.

Definition with_color_list (a : draw_args) (cl : option (list Z))
  : draw_args := {|
  configuration := configuration a;
  atomtypes := atomtypes a;
  default_radius := default_radius a;
  radii := radii a;
  radius_list := radius_list a;
  color_list := cl;
  color_value_list := color_value_list a;
  sphere_resolution := sphere_resolution a;
  connecting_segments_types := connecting_segments_types a;
  bond_list := bond_list a;
  cylinder_radius_fraction := cylinder_radius_fraction a;
  reset_view := reset_view a
|}.

(** ** Sample calls *)

(** Two particles. *)
Definition two_particles : list point :=
  [ origin; (1%float, 0.5%float, 0%float) ].

(** Two particles of type 0, every optional argument given: radii per
    type and per particle, colour ids and colour values, one connecting
    type, two bonds (the second one with an index from the end). *)
Definition full_call : draw_args := {|
  configuration := two_particles;
  atomtypes := Some [0; 0];
  default_radius := 0.5%float;
  radii := Some [0.25%float; 0.75%float];
  radius_list := Some [1%float; 2%float];
  color_list := Some [5; 6];
  color_value_list := Some [0.5%float; 1%float];
  sphere_resolution := 30;
  connecting_segments_types := Some [0];
  bond_list := Some [(0, 1); (-1, 0)];
  cylinder_radius_fraction := 0.5%float;
  reset_view := false
|}.

(** One particle at the origin with the colour value one half. *)
Definition half_colored : draw_args := {|
  configuration := [origin];
  atomtypes := None;
  default_radius := 0.5%float;
  radii := None;
  radius_list := None;
  color_list := None;
  color_value_list := Some [0.5%float];
  sphere_resolution := 30;
  connecting_segments_types := None;
  bond_list := None;
  cylinder_radius_fraction := 0.5%float;
  reset_view := true
|}.

(** Two particles, a connecting type, and no [atomtypes]. *)
Definition untyped_segments : draw_args := {|
  configuration := two_particles;
  atomtypes := None;
  default_radius := 0.5%float;
  radii := None;
  radius_list := None;
  color_list := Some [5; 6];
  color_value_list := None;
  sphere_resolution := 30;
  connecting_segments_types := Some [0];
  bond_list := Some [(0, 1)];
  cylinder_radius_fraction := 0.5%float;
  reset_view := true
|}.

(** ** The rounds of the connection loop *)






(** Sample surroundings: a stand-in for the script text; a network on
    which the first [connect] succeeds; one on which every [connect] is
    refused (ECONNREFUSED, 111 on Linux). *)
Definition sample_script (port : Z) : string :=
  ("remote_ctl::start " ++ pct_i port)%string.



(** A colormap for samples: grey levels. *)
Definition grey_map (N : Z) (name : string) : result colormap_obj :=
  Ok (fun x => (x, x, x, 1%float)).

(** ** Trajectory texts *)

Definition newline : ascii := ascii_of_nat 10.

(** The body of a line holds no newline. *)
Fixpoint one_line (b : string) : Prop :=
  match b with
  | EmptyString => True
  | String c b' => Ascii.eqb c newline = false /\ one_line b'
  end.

Definition carriage_return : ascii := ascii_of_nat 13.

(** The body of a line of a file holds no newline and no carriage
    return: either ends a line read in text mode. *)
Fixpoint text_line (b : string) : Prop :=
  match b with
  | EmptyString => True
  | String c b' =>
      Ascii.eqb c newline = false /\
      Ascii.eqb c carriage_return = false /\ text_line b'
  end.

(** A machine with room for every array. *)
Definition enough_memory : allocator := fun _ _ => None.

(** A machine without room for the arrays of more than a million
    particles. *)
Definition small_machine : allocator :=
  fun _ N => if 1000000 <? N then Some OutOfMemory else None.

(** The arrays of a frame of [N] particles can be made, whenever they
    are asked for. *)
Definition allocates (zeros : allocator) (N : Z) : Prop :=
  forall k, zeros k N = None.

(** The text made of the given lines, each closed by a newline. *)
Fixpoint unlines (bodies : list string) : string :=
  match bodies with
  | [] => EmptyString
  | b :: bs => (b ++ nl ++ unlines bs)%string
  end.

(** A frame as the reader takes it: a header line, the particle lines,
    the line of the box. *)
Record frame_text : Type := {
  header : string;
  particles : list string;
  box : string
}.

Definition frame_bodies (f : frame_text) : list string :=
  header f :: particles f ++ [box f].

(** Frames one after the other, each with its header line: the format
    the docstring of [load_xyzfile] gives, configurations concatenated
    together. *)
Definition trajectory_text (frames : list frame_text) : string :=
  unlines (flat_map frame_bodies frames).

(** The format in the words of the specification: one header line, then
    blocks of particle lines followed by the line of the box, and
    nothing between the blocks. *)
Definition spec_format_text (first_line : string)
  (blocks : list (list string * string)) : string :=
  unlines (first_line :: flat_map (fun b => fst b ++ [snd b]) blocks).

(** The atom type and the position a particle line gives. *)
Definition particle_type (b : string) : string :=
  match parse_particle b with
  | Ok (t, _) => t
  | Raise _ => EmptyString
  end.

Definition particle_position (b : string) : point :=
  match parse_particle b with
  | Ok (_, p) => p
  | Raise _ => origin
  end.

Definition box_size (b : string) : list float :=
  match floats_of (str_split b) with
  | Some l => l
  | None => []
  end.

Definition frame_types (f : frame_text) : list string :=
  map particle_type (particles f).

Definition frame_positions (f : frame_text) : list point :=
  map particle_position (particles f).

(** A particle line the reader accepts. *)
Definition particle_ok (b : string) : Prop :=
  text_line b /\ exists t p, parse_particle b = Ok (t, p).

(** A frame of [N] particles: [N] particle lines the reader accepts and
    a line of three numbers. *)
Definition frame_ok (N : nat) (f : frame_text) : Prop :=
  text_line (header f) /\
  length (particles f) = N /\
  Forall particle_ok (particles f) /\
  text_line (box f) /\
  exists x y z, floats_of (str_split (box f)) = Some [x; y; z].

(** A trajectory of frames of [N] particles each: at least one frame,
    the first header line starts with [N]. *)
Definition trajectory_ok (N : nat) (frames : list frame_text) : Prop :=
  (exists tok rest,
     str_split (header (hd {| header := ""; particles := []; box := "" |}
                           frames)) = tok :: rest /\
     py_int tok = Some (Z.of_nat N)) /\
  frames <> [] /\
  Forall (frame_ok N) frames.

(** *** The numbering of atom types, in the words of the
    specification *)

(** Where [t] first occurs in [l] (the length of [l] if nowhere). *)
Fixpoint first_pos (t : string) (l : list string) : nat :=
  match l with
  | [] => O
  | x :: l' => if String.eqb t x then O else S (first_pos t l')
  end.

(** The strings of [l] without repetitions, in the order they first
    occur, leaving out those of [seen]. *)
Fixpoint distinct_from (seen : list string) (l : list string)
  : list string :=
  match l with
  | [] => []
  | x :: l' =>
      match index_of x seen with
      | Some _ => distinct_from seen l'
      | None => x :: distinct_from (seen ++ [x]) l'
      end
  end.

Definition distinct (l : list string) : list string := distinct_from [] l.

(** The integer of an atom type: how many distinct atom types occur in
    the file before it does. *)
Definition type_number (all : list string) (t : string) : Z :=
  Z.of_nat (length (distinct (firstn (first_pos t all) all))).

(** *** Lines that differ in the atom id only *)

(** Line [k] of a file (counting from zero) is a particle line when the
    frames hold [N] particles: a frame takes [N + 2] lines, header
    first, box last. *)
Definition particle_line_no (N k : nat) : bool :=
  let r := (k mod (N + 2))%nat in
  (Nat.leb 1 r && Nat.leb r N)%bool.

(** Two lines with a first token each and the same tokens after it. *)
Definition same_but_id (l l' : string) : Prop :=
  exists id id' rest,
    str_split l = id :: rest /\ str_split l' = id' :: rest.

(** Two files, line by line the same but for the atom ids of particle
    lines. *)
Definition differ_in_atom_ids (N : nat) (ls ls' : list string) : Prop :=
  length ls = length ls' /\
  forall k, (k < length ls)%nat ->
    nth k ls EmptyString = nth k ls' EmptyString \/
    (particle_line_no N k = true /\
     same_but_id (nth k ls EmptyString) (nth k ls' EmptyString)).

(** The particle count the first line of a text announces. *)
Definition header_count (text : string) : option Z :=
  match str_split (fst (readline (open text))) with
  | tok :: _ => py_int tok
  | [] => None
  end.

(** *** Sample texts *)

(** The example of the specification: one frame of three particles. *)
Definition example_frame : frame_text := {|
  header := "3 header";
  particles := ["0 A 0 0 0"; "1 B 1 0 0"; "2 A 0 1 0"];
  box := "10 10 10"
|}.

(** Two frames of one particle each, a header before each. *)
Definition two_frames : list frame_text :=
  [ {| header := "1 first"; particles := ["0 A 0 0 0"]; box := "10 10 10" |};
    {| header := "1 second"; particles := ["0 B 1 1 1"]; box := "10 10 10" |} ].

(** *** Auxiliary notions for the reader *)

(** A line of a file: its body and the newline. *)
Definition line_of (b : string) : string := (b ++ nl)%string.

Arguments line_of : simpl never.

(** [t in l] *)
Definition mem (t : string) (l : list string) : bool :=
  match index_of t l with
  | Some _ => true
  | None => false
  end.

(** The numbers the reader gives the types [tys] in turn, from the labels
    known before, and the labels known after. *)
Fixpoint number_types (labels : list string) (tys : list string)
  : list Z * list string :=
  match tys with
  | [] => ([], labels)
  | t :: ts =>
      let '(k, labels1) := numeric_atomtype t labels in
      let '(ks, labels2) := number_types labels1 ts in
      (k :: ks, labels2)
  end.

(** The lines of the frames [fs], as [readline] returns them. *)
Definition lines_of (fs : list frame_text) : list string :=
  map line_of (flat_map frame_bodies fs).

(** Two open files, the same from line [off] of the text on but for the
    atom ids of particle lines. *)
Definition same_from (N off : nat) (fh fh' : file) : Prop :=
  length fh = length fh' /\
  forall j, (j < length fh)%nat ->
    nth j fh EmptyString = nth j fh' EmptyString \/
    (particle_line_no N (off + j) = true /\
     same_but_id (nth j fh EmptyString) (nth j fh' EmptyString)).

(* ================================================================== *)
(** * Part II, continued. The rest of the client *)
(* ================================================================== *)

(** ** [VMDStream.render_tachyon] *)

(** Lines 213-217.  The [%%s] of the format are the two characters [%s],
    sent as they are. *)
Definition render_tachyon (file_prefix : string) : IO unit :=
  send ("render Tachyon " ++ (file_prefix ++ ".dat") ++ " " ++ dq ++
        "/software/vmd-1.9.2-x86_64/lib/tachyon_LINUXAMD64" ++ dq ++
        " -aasamples 12 %s -format TARGA -o %s.tga" ++ nl)%string.

(** ** What a method writes, whatever its arguments *)

(** [emits P m]: [m] ends the same way and writes the same chunks on
    every usable socket, and every chunk satisfies [P]. *)
Definition emits {A : Type} (P : string -> Prop) (m : IO A) : Prop :=
  exists (r : result A) (ls : list string), sends m r ls /\ Forall P ls.

(** A chunk that is one line: a body without newline, then the
    newline. *)
Definition single_line (l : string) : Prop :=
  exists b, l = (b ++ nl)%string /\ one_line b.

(** The code a socket that is not usable answers a write with. *)
Definition refusal (s : sock) : Z :=
  if closed s then EBADF else EPIPE.


(** The first attempt among [attempts] whose outcome on the network is
    not a socket error that the loop prints and passes over. *)
Fixpoint first_decisive (net : nat -> connect_outcome) (attempts : list nat)
  : option nat :=
  match attempts with
  | [] => None
  | i :: rest =>
      match net i with
      | Fails (SocketErr errno) =>
          if already_connected errno then Some i
          else first_decisive net rest
      | _ => Some i
      end
  end.

(** The chunk [render_tachyon] writes, without its newline. *)
Definition render_body (file_prefix : string) : string :=
  ("render Tachyon " ++ (file_prefix ++ ".dat") ++ " " ++ dq ++
   "/software/vmd-1.9.2-x86_64/lib/tachyon_LINUXAMD64" ++ dq ++
   " -aasamples 12 %s -format TARGA -o %s.tga")%string.

(** The lines a call whose arguments fit writes. *)
Definition call_lines (a : draw_args) : list string :=
  setup_lines ++ bonds_part a ++ particles_part a ++ reset_part a.

(** The call [a] with another [bond_list]. *)
Definition with_bonds (a : draw_args) (bl : option (list (Z * Z)))
  : draw_args := {|
  configuration := configuration a;
  atomtypes := atomtypes a;
  default_radius := default_radius a;
  radii := radii a;
  radius_list := radius_list a;
  color_list := color_list a;
  color_value_list := color_value_list a;
  sphere_resolution := sphere_resolution a;
  connecting_segments_types := connecting_segments_types a;
  bond_list := bl;
  cylinder_radius_fraction := cylinder_radius_fraction a;
  reset_view := reset_view a
|}.

(** Two particles and a bond to a third one, which is not there. *)
Definition dangling_bond : draw_args :=
  with_bonds (with_segments full_call None) (Some [(0, 2)]).


(** A network on which [connect] is refused twice, then succeeds. *)
Definition net_slow (i : nat) : connect_outcome :=
  if Nat.ltb i 2 then Fails (SocketErr (Some 111)) else Connects.



(** An index counted from the front: a negative one is taken from the
    end of an array of [n] entries. *)
Definition from_end (n : nat) (i : Z) : Z :=
  if i <? 0 then i + Z.of_nat n else i.

Definition bond_from_end (n : nat) (b : Z * Z) : Z * Z :=
  (from_end n (fst b), from_end n (snd b)).

(* ================================================================== *)
(** * Part III. Lemmas and theorems *)
(* ================================================================== *)

(** ** The socket *)

Lemma after_sends_nil (s : sock) : after_sends s [] = s.
Proof.
  destruct s as [c l]. unfold after_sends. simpl. now rewrite app_nil_r.
Qed.

Lemma after_sends_app (s : sock) (l1 l2 : list string) :
  after_sends (after_sends s l1) l2 = after_sends s (l1 ++ l2).
Proof.
  unfold after_sends. simpl. now rewrite map_app, app_assoc.
Qed.

Lemma closed_after_sends (s : sock) (ls : list string) :
  closed (after_sends s ls) = closed s.
Proof.
  unfold closed, after_sends. simpl. rewrite existsb_app.
  replace (existsb is_close (map EvSend ls)) with false.
  - apply orb_false_r.
  - induction ls as [|l ls IH]; simpl; auto.
Qed.

Lemma usable_after_sends (s : sock) (ls : list string) :
  usable (after_sends s ls) = usable s.
Proof.
  unfold usable. now rewrite closed_after_sends.
Qed.

Lemma usable_inv (s : sock) :
  usable s = true -> connected s = true /\ closed s = false.
Proof.
  unfold usable. intros H. apply andb_true_iff in H as [H1 H2].
  split; [assumption | now apply negb_true_iff].
Qed.

(** ** Rules for [sends] *)

Lemma bind_ret {A B : Type} (a : A) (k : A -> IO B) : bind (ret a) k = k a.
Proof. reflexivity. Qed.

Lemma sends_ret {A : Type} (a : A) : sends (ret a) (Ok a) [].
Proof. intros s _. unfold ret. now rewrite after_sends_nil. Qed.

Lemma sends_raise {A : Type} (e : pyexn) : sends (@raise A e) (Raise e) [].
Proof. intros s _. unfold raise. now rewrite after_sends_nil. Qed.

Lemma sends_send (data : string) : sends (send data) (Ok tt) [data].
Proof.
  intros s H. apply usable_inv in H as [Hc Ho].
  unfold send. now rewrite Ho, Hc.
Qed.

Lemma sends_bind {A B : Type} (m : IO A) (k : A -> IO B) (a : A)
  (r : result B) (l1 l2 : list string) :
  sends m (Ok a) l1 -> sends (k a) r l2 -> sends (bind m k) r (l1 ++ l2).
Proof.
  intros Hm Hk s Hs. unfold bind. rewrite (Hm s Hs).
  rewrite (Hk (after_sends s l1)).
  - now rewrite after_sends_app.
  - now rewrite usable_after_sends.
Qed.

Lemma sends_bind_raise {A B : Type} (m : IO A) (k : A -> IO B) (e : pyexn)
  (l1 : list string) :
  sends m (Raise e) l1 -> sends (bind m k) (Raise e) l1.
Proof.
  intros Hm s Hs. unfold bind. now rewrite (Hm s Hs).
Qed.

Lemma sends_for_each {A : Type} (l : list A) (body : A -> IO unit)
  (f : A -> list string) :
  (forall x, In x l -> sends (body x) (Ok tt) (f x)) ->
  sends (for_each l body) (Ok tt) (flat_map f l).
Proof.
  induction l as [|x l IH]; intros H; simpl.
  - apply sends_ret.
  - apply sends_bind with (a := tt).
    + apply H. now left.
    + apply IH. intros y Hy. apply H. now right.
Qed.

Lemma sends_for_each_raise {A : Type} (x : A) (l : list A)
  (body : A -> IO unit) (e : pyexn) (ls : list string) :
  sends (body x) (Raise e) ls ->
  sends (for_each (x :: l) body) (Raise e) ls.
Proof.
  intros H. simpl. now apply sends_bind_raise.
Qed.

Lemma sends_lines (ls : list string) : sends (for_each ls send) (Ok tt) ls.
Proof.
  replace ls with (flat_map (fun l => [l]) ls) at 2.
  - apply sends_for_each. intros x _. apply sends_send.
  - induction ls as [|l ls IH]; simpl; congruence.
Qed.

(** ** Subscripting *)

Lemma np_get_map {A B : Type} (f : A -> B) (l : list A) (i : Z) :
  np_get (map f l) i = option_map f (np_get l i).
Proof.
  unfold np_get. rewrite length_map.
  destruct ((0 <=? i) && (i <? Z.of_nat (length l))).
  - apply nth_error_map.
  - destruct ((- Z.of_nat (length l) <=? i) && (i <? 0)).
    + apply nth_error_map.
    + reflexivity.
Qed.

Lemma np_get_valid {A : Type} (d : A) (l : list A) (i : Z) :
  valid_index (length l) i -> np_get l i = Some (np_nth d l i).
Proof.
  unfold valid_index, np_nth, np_get. intros H.
  destruct (Z.leb_spec 0 i) as [Hi|Hi]; simpl.
  - destruct (Z.ltb_spec i (Z.of_nat (length l))) as [Hn|Hn]; [|lia].
    destruct (nth_error l (Z.to_nat i)) eqn:E; [reflexivity|].
    apply nth_error_None in E. lia.
  - destruct (Z.leb_spec (- Z.of_nat (length l)) i) as [Hl|Hl]; [|lia].
    destruct (Z.ltb_spec i 0) as [Hz|Hz]; [|lia]. simpl.
    destruct (nth_error l (Z.to_nat (Z.of_nat (length l) + i))) eqn:E;
      [reflexivity|].
    apply nth_error_None in E. lia.
Qed.

Lemma np_nth_map {A B : Type} (f : A -> B) (d : A) (e : B) (l : list A)
  (i : Z) :
  valid_index (length l) i -> np_nth e (map f l) i = f (np_nth d l i).
Proof.
  intros H. unfold np_nth at 1. rewrite np_get_map.
  now rewrite (np_get_valid d l i H).
Qed.

Lemma np_nth_of_nat {A : Type} (d : A) (l : list A) (n : nat) :
  (n < length l)%nat -> np_nth d l (Z.of_nat n) = nth n l d.
Proof.
  intros H. unfold np_nth, np_get.
  destruct (Z.leb_spec 0 (Z.of_nat n)) as [_|?]; [|lia].
  destruct (Z.ltb_spec (Z.of_nat n) (Z.of_nat (length l))) as [_|?]; [|lia].
  simpl. rewrite Nat2Z.id.
  destruct (nth_error l n) eqn:E.
  - symmetry. now apply nth_error_nth.
  - apply nth_error_None in E. lia.
Qed.

Lemma valid_index_of_nat (n k : nat) :
  (k < n)%nat -> valid_index n (Z.of_nat k).
Proof. unfold valid_index. lia. Qed.

Lemma np_nth_In {A : Type} (d : A) (l : list A) (i : Z) :
  valid_index (length l) i -> In (np_nth d l i) l.
Proof.
  intros H. pose proof (np_get_valid d l i H) as E.
  unfold np_get in E.
  destruct ((0 <=? i) && (i <? Z.of_nat (length l)));
    [|destruct ((- Z.of_nat (length l) <=? i) && (i <? 0)); [|discriminate]];
    eapply nth_error_In; exact E.
Qed.

Lemma subscript_valid {A : Type} (d : A) (l : list A) (i : Z) :
  valid_index (length l) i -> subscript l i = ret (np_nth d l i).
Proof.
  intros H. unfold subscript. now rewrite (np_get_valid d l i H).
Qed.

Lemma map_nth_seq {A B : Type} (g : A -> B) (d : A) (l : list A) :
  map (fun n => g (nth n l d)) (seq 0 (length l)) = map g l.
Proof.
  induction l as [|x l IH]; simpl; [reflexivity|].
  f_equal. rewrite <- seq_shift, map_map. exact IH.
Qed.

(** ** The rounds of [draw_atomic] *)

Section Rounds.

Variable a : draw_args.
Hypothesis Hfit : args_fit a.

Let n := length (configuration a).

Lemma send_color_sends (i : Z) :
  valid_index n i ->
  sends (send_color (readjust_color_list a) (atomtypes a) i) (Ok tt)
        (color_line_from a (chosen_color a) i).
Proof.
  intros Hi. destruct Hfit as (Ht & _ & Hc & _).
  unfold send_color, readjust_color_list, chosen_color, color_sources,
    color_line_from, continuous_color_id.
  destruct (color_value_list a) as [cv|]; simpl in *.
  - rewrite (subscript_valid 0) by (rewrite length_map, Hc; exact Hi).
    rewrite (np_nth_map _ 0%float) by (rewrite Hc; exact Hi).
    apply (sends_send _).
  - destruct (color_list a) as [cl|]; simpl in *.
    + rewrite (subscript_valid 0) by (rewrite Hc; exact Hi).
      apply (sends_send _).
    + destruct (atomtypes a) as [tl|]; simpl in *.
      * rewrite (subscript_valid 0) by (rewrite Ht; exact Hi).
        apply (sends_send _).
      * apply sends_ret.
Qed.

Lemma choose_radius_sends (i : Z) :
  valid_index n i ->
  sends (choose_radius a i) (Ok (radius_from a (chosen_radius a) i)) [].
Proof.
  intros Hi. destruct Hfit as (Ht & Hr & _ & Hrad & _).
  unfold choose_radius, chosen_radius, radius_sources, radius_from.
  destruct (radii a) as [r|]; simpl in *.
  - destruct (atomtypes a) as [tl|]; simpl in *.
    + rewrite (subscript_valid 0) by (rewrite Ht; exact Hi).
      assert (Hv : valid_index (length r) (np_nth 0 tl i)).
      { rewrite Forall_forall in Hrad. apply Hrad, np_nth_In.
        rewrite Ht. exact Hi. }
      rewrite bind_ret, (subscript_valid 0%float _ _ Hv). apply sends_ret.
    + destruct (radius_list a) as [rl|]; simpl in *.
      * rewrite (subscript_valid 0%float) by (rewrite Hr; exact Hi).
        apply sends_ret.
      * apply sends_ret.
  - destruct (radius_list a) as [rl|]; simpl in *.
    + rewrite (subscript_valid 0%float) by (rewrite Hr; exact Hi).
      apply sends_ret.
    + apply sends_ret.
Qed.

Lemma position_sends (i : Z) :
  valid_index n i ->
  sends (subscript (configuration a) i) (Ok (position a i)) [].
Proof.
  intros Hi. unfold position.
  rewrite (subscript_valid origin _ _ Hi). apply sends_ret.
Qed.

Lemma draw_bond_sends (b : Z * Z) :
  valid_index n (fst b) -> valid_index n (snd b) ->
  sends (draw_bond a (readjust_color_list a) b) (Ok tt) (bond_lines a b).
Proof.
  destruct b as [i j]. simpl. intros Hi Hj.
  unfold draw_bond, bond_lines. simpl.
  eapply sends_bind; [apply (send_color_sends i Hi)|].
  change [cylinder_line a i j] with ([] ++ [] ++ [] ++ [cylinder_line a i j]).
  eapply sends_bind; [apply (choose_radius_sends i Hi)|].
  eapply sends_bind; [apply (position_sends i Hi)|].
  eapply sends_bind; [apply (position_sends j Hj)|].
  apply sends_send.
Qed.

Lemma draw_segment_sends (tl : list Z) (k : nat) (t : Z) :
  atomtypes a = Some tl ->
  (S k < n)%nat ->
  sends (draw_segment a (Z.of_nat k)
           (radius_from a (chosen_radius a) (Z.of_nat k)) t)
        (Ok tt)
        (if (np_nth 0 tl (Z.of_nat k) =? t) &&
            (np_nth 0 tl (Z.of_nat k + 1) =? t)
         then [cylinder_line a (Z.of_nat k) (Z.of_nat k + 1)] else []).
Proof.
  intros Et Hk. pose proof Hfit as (Ht & _). rewrite Et in Ht. simpl in Ht.
  assert (Hi : valid_index n (Z.of_nat k)) by (unfold valid_index; lia).
  assert (Hj : valid_index n (Z.of_nat k + 1)) by (unfold valid_index; lia).
  unfold draw_segment. rewrite Et. simpl.
  rewrite (subscript_valid 0) by (rewrite Ht; exact Hi). rewrite bind_ret.
  destruct (np_nth 0 tl (Z.of_nat k) =? t); simpl; [|apply sends_ret].
  rewrite (subscript_valid 0) by (rewrite Ht; exact Hj). rewrite bind_ret.
  destruct (np_nth 0 tl (Z.of_nat k + 1) =? t); [|apply sends_ret].
  change [cylinder_line a (Z.of_nat k) (Z.of_nat k + 1)]
    with ([] ++ [] ++ [cylinder_line a (Z.of_nat k) (Z.of_nat k + 1)]).
  eapply sends_bind; [apply (position_sends _ Hi)|].
  eapply sends_bind; [apply (position_sends _ Hj)|].
  apply sends_send.
Qed.

Hypothesis Htyped : segments_typed a.

Lemma segments_sends (k : nat) :
  (k < n)%nat ->
  sends
    match connecting_segments_types a with
    | Some cst =>
        if Z.of_nat k + 1 <? Z.of_nat n then
          for_each cst (draw_segment a (Z.of_nat k)
                          (radius_from a (chosen_radius a) (Z.of_nat k)))
        else ret tt
    | None => ret tt
    end (Ok tt) (segment_lines a (Z.of_nat k)).
Proof.
  intros Hk. unfold segment_lines. fold n.
  destruct (connecting_segments_types a) as [cst|] eqn:Ec; simpl.
  - destruct (Z.ltb_spec (Z.of_nat k + 1) (Z.of_nat n)) as [Hlt|Hge];
      [|apply sends_ret].
    destruct (atomtypes a) as [tl|] eqn:Et; simpl.
    + apply sends_for_each. intros t _.
      apply draw_segment_sends; [assumption | lia].
    + destruct cst as [|t cst]; [apply sends_ret|].
      exfalso. unfold segments_typed in Htyped. rewrite Ec in Htyped.
      apply Htyped; [fold n; lia | exact Et].
  - destruct (Z.of_nat k + 1 <? Z.of_nat n); apply sends_ret.
Qed.

Lemma draw_particle_sends (k : nat) :
  (k < n)%nat ->
  sends (draw_particle a (readjust_color_list a) k) (Ok tt)
        (particle_lines a k).
Proof.
  intros Hk.
  assert (Hi : valid_index n (Z.of_nat k)) by (unfold valid_index; lia).
  unfold draw_particle, particle_lines.
  eapply sends_bind; [apply (send_color_sends _ Hi)|].
  change ([sphere_line a (Z.of_nat k)] ++ segment_lines a (Z.of_nat k))
    with ([] ++ [] ++ [sphere_line a (Z.of_nat k)] ++
          segment_lines a (Z.of_nat k)).
  eapply sends_bind; [apply (choose_radius_sends _ Hi)|].
  eapply sends_bind; [apply (position_sends _ Hi)|].
  eapply sends_bind; [apply sends_send|].
  apply (segments_sends k Hk).
Qed.

(** A call whose arguments fit returns, having written the setup, the
    bonds, the particles and the reset of the view. *)
Lemma draw_atomic_sends :
  sends (draw_atomic a) (Ok tt)
        (setup_lines ++ bonds_part a ++ particles_part a ++ reset_part a).
Proof.
  unfold draw_atomic.
  eapply sends_bind; [apply sends_lines|].
  eapply sends_bind with (a := tt).
  { unfold bonds_part. destruct Hfit as (_ & _ & _ & _ & Hb).
    destruct (bond_list a) as [bl|]; simpl; [|apply sends_ret].
    apply sends_for_each. intros b Hin.
    rewrite Forall_forall in Hb. destruct (Hb b Hin) as [Hi Hj].
    now apply draw_bond_sends. }
  eapply sends_bind with (a := tt).
  { unfold particles_part. apply sends_for_each. intros k Hin.
    apply in_seq in Hin. apply draw_particle_sends. fold n. lia. }
  unfold reset_part. destruct (reset_view a).
  - apply sends_lines.
  - apply sends_ret.
Qed.

End Rounds.

(** ** Kinds of lines *)

Lemma flat_map_singleton {A B : Type} (f : A -> B) (l : list A) :
  flat_map (fun x => [f x]) l = map f l.
Proof. induction l as [|x l IH]; simpl; congruence. Qed.

Lemma count_lines_app (p : string -> bool) (l1 l2 : list string) :
  count_lines p (l1 ++ l2) = (count_lines p l1 + count_lines p l2)%nat.
Proof. unfold count_lines. now rewrite filter_app, length_app. Qed.

Lemma count_lines_flat_map {A : Type} (p : string -> bool)
  (f : A -> list string) (k : nat) (l : list A) :
  (forall x, In x l -> count_lines p (f x) = k) ->
  count_lines p (flat_map f l) = (k * length l)%nat.
Proof.
  induction l as [|x l IH]; intros H; simpl.
  - now rewrite Nat.mul_0_r.
  - rewrite count_lines_app, H by now left.
    rewrite IH by (intros y Hy; apply H; now right). lia.
Qed.

Lemma count_lines_none (p : string -> bool) (l : list string) :
  Forall (fun x => p x = false) l -> count_lines p l = O.
Proof.
  unfold count_lines. induction 1 as [|x l Hx _ IH]; simpl; [reflexivity|].
  now rewrite Hx.
Qed.

Lemma sphere_is_sphere (p : point) (r : float) (res : Z) :
  is_sphere_line (fmt_draw_sphere p r res) = true.
Proof. reflexivity. Qed.

Lemma sphere_not_cylinder (p : point) (r : float) (res : Z) :
  is_cylinder_line (fmt_draw_sphere p r res) = false.
Proof. reflexivity. Qed.

Lemma sphere_not_color (p : point) (r : float) (res : Z) :
  is_color_line (fmt_draw_sphere p r res) = false.
Proof. reflexivity. Qed.

Lemma cylinder_is_cylinder (p q : point) (r : float) (res : Z) :
  is_cylinder_line (fmt_draw_cylinder p q r res) = true.
Proof. reflexivity. Qed.

Lemma cylinder_not_sphere (p q : point) (r : float) (res : Z) :
  is_sphere_line (fmt_draw_cylinder p q r res) = false.
Proof. reflexivity. Qed.

Lemma cylinder_not_color (p q : point) (r : float) (res : Z) :
  is_color_line (fmt_draw_cylinder p q r res) = false.
Proof. reflexivity. Qed.

Lemma color_is_color (c : Z) : is_color_line (fmt_draw_color c) = true.
Proof. reflexivity. Qed.

Lemma color_not_sphere (c : Z) : is_sphere_line (fmt_draw_color c) = false.
Proof. reflexivity. Qed.

Lemma color_not_cylinder (c : Z) :
  is_cylinder_line (fmt_draw_color c) = false.
Proof. reflexivity. Qed.

Lemma color_line_from_kind (a : draw_args) (src : color_source) (i : Z) :
  Forall (fun l => is_color_line l = true /\ is_sphere_line l = false /\
                   is_cylinder_line l = false)
         (color_line_from a src i).
Proof. destruct src; simpl; repeat constructor. Qed.

Lemma segment_lines_kind (a : draw_args) (i : Z) :
  Forall (fun l => is_cylinder_line l = true /\ is_sphere_line l = false /\
                   is_color_line l = false)
         (segment_lines a i).
Proof.
  unfold segment_lines.
  destruct (i + 1 <? Z.of_nat (length (configuration a))); [|constructor].
  induction (or_nil (connecting_segments_types a)) as [|t l IH]; simpl.
  - constructor.
  - apply Forall_app. split; [|exact IH].
    destruct ((np_nth 0 (or_nil (atomtypes a)) i =? t) &&
              (np_nth 0 (or_nil (atomtypes a)) (i + 1) =? t));
      repeat constructor.
Qed.

Lemma count_spheres_particle (a : draw_args) (k : nat) :
  count_lines is_sphere_line (particle_lines a k) = 1%nat.
Proof.
  unfold particle_lines. rewrite !count_lines_app.
  rewrite (count_lines_none is_sphere_line (color_line_from _ _ _)).
  - rewrite (count_lines_none is_sphere_line (segment_lines _ _)).
    + reflexivity.
    + eapply Forall_impl; [|apply segment_lines_kind]. simpl. tauto.
  - eapply Forall_impl; [|apply color_line_from_kind]. simpl. tauto.
Qed.

Lemma count_cylinders_bond (a : draw_args) (b : Z * Z) :
  count_lines is_cylinder_line (bond_lines a b) = 1%nat.
Proof.
  unfold bond_lines. rewrite count_lines_app.
  rewrite (count_lines_none is_cylinder_line (color_line_from _ _ _)).
  - reflexivity.
  - eapply Forall_impl; [|apply color_line_from_kind]. simpl. tauto.
Qed.

Lemma count_spheres_bond (a : draw_args) (b : Z * Z) :
  count_lines is_sphere_line (bond_lines a b) = O.
Proof.
  unfold bond_lines. rewrite count_lines_app.
  rewrite (count_lines_none is_sphere_line (color_line_from _ _ _)).
  - reflexivity.
  - eapply Forall_impl; [|apply color_line_from_kind]. simpl. tauto.
Qed.

Lemma count_spheres_particles (a : draw_args) :
  count_lines is_sphere_line (particles_part a) = length (configuration a).
Proof.
  unfold particles_part.
  rewrite (count_lines_flat_map _ _ 1%nat).
  - rewrite length_seq. lia.
  - intros k _. apply count_spheres_particle.
Qed.

(** ** [draw_atomic]: the claims *)

Lemma args_fit_default (conf : list point) : args_fit (default_args conf).
Proof. unfold args_fit. simpl. tauto. Qed.

Lemma particles_part_default (conf : list point) :
  particles_part (default_args conf) =
  map (fun p => fmt_draw_sphere p 0.5%float 30) conf.
Proof.
  unfold particles_part. simpl.
  rewrite <- (map_nth_seq (fun p => fmt_draw_sphere p 0.5%float 30) origin).
  rewrite <- flat_map_singleton, !flat_map_concat_map. f_equal.
  apply map_ext_in.
  intros k Hk. apply in_seq in Hk.
  unfold particle_lines, segment_lines, sphere_line, position. simpl.
  rewrite np_nth_of_nat by lia.
  now destruct (Z.of_nat k + 1 <? Z.of_nat (length conf)).
Qed.

(** C3. A call [draw_atomic(configuration)], every other argument at its
    default (so [reset_view] is true), on a usable socket writes exactly
    the six setup lines, then one sphere line per particle in index
    order, then the two lines that reset the view; none of these lines
    selects a colour or draws a cylinder. *)
Theorem C3_positions_only (conf : list point) (s : sock) :
  usable s = true ->
  let spheres := map (fun p => fmt_draw_sphere p 0.5%float 30) conf in
  let lines := setup_lines ++ spheres ++ reset_lines in
  draw_atomic (default_args conf) s = (Ok tt, after_sends s lines) /\
  length setup_lines = 6%nat /\
  length spheres = length conf /\
  length reset_lines = 2%nat /\
  count_lines is_sphere_line lines = length conf /\
  count_lines is_color_line lines = O /\
  count_lines is_cylinder_line lines = O.
Proof.
  intros Hs spheres lines.
  assert (Hk : forall p, (forall x, p (fmt_draw_sphere x 0.5%float 30) = false) ->
                         count_lines p spheres = O).
  { intros p Hp. apply count_lines_none. apply Forall_forall.
    intros l Hl. apply in_map_iff in Hl as (x & <- & _). apply Hp. }
  split; [|repeat split].
  - pose proof (draw_atomic_sends (default_args conf)
                  (args_fit_default conf) I s Hs) as H.
    rewrite particles_part_default in H. exact H.
  - unfold spheres. apply length_map.
  - unfold lines. rewrite !count_lines_app.
    replace (count_lines is_sphere_line spheres) with (length conf).
    + change (count_lines is_sphere_line setup_lines) with O.
      change (count_lines is_sphere_line reset_lines) with O. lia.
    + unfold spheres, count_lines. clear. induction conf; simpl; congruence.
  - unfold lines. rewrite !count_lines_app, Hk; [reflexivity|].
    intros x. apply sphere_not_color.
  - unfold lines. rewrite !count_lines_app, Hk; [reflexivity|].
    intros x. apply sphere_not_cylinder.
Qed.

Lemma C3_positions_only_witness :
  draw_atomic (default_args two_particles) (new_socket true) =
  (Ok tt,
   after_sends (new_socket true)
     (setup_lines ++
      map (fun p => fmt_draw_sphere p 0.5%float 30) two_particles ++
      reset_lines)).
Proof.
  apply (C3_positions_only two_particles (new_socket true)). reflexivity.
Defined.

(** C4. Whenever the arguments fit, a call writes the setup lines, the
    lines of every bond, the lines of every particle and the reset of
    the view, where every sphere and cylinder takes its radius from the
    per-type radii (given together with the types) before the
    per-particle radii before the default radius, and every colour line
    comes from the continuous colour values before the discrete colour
    ids before the atom types, and is absent when none of them is
    given. *)
Theorem C4_precedence (a : draw_args) (s : sock) :
  args_fit a -> segments_typed a -> usable s = true ->
  draw_atomic a s =
    (Ok tt,
     after_sends s
       (setup_lines ++
        flat_map (bond_lines a) (or_nil (bond_list a)) ++
        flat_map (particle_lines a) (seq 0 (length (configuration a))) ++
        reset_part a)) /\
  chosen_radius a =
    (if given (radii a) && given (atomtypes a) then PerType
     else if given (radius_list a) then PerParticle
     else DefaultRadius) /\
  chosen_color a =
    (if given (color_value_list a) then Continuous
     else if given (color_list a) then Discrete
     else if given (atomtypes a) then TypeBased
     else NoColor).
Proof.
  intros Hfit Htyped Hs. split; [|split].
  - exact (draw_atomic_sends a Hfit Htyped s Hs).
  - unfold chosen_radius, radius_sources.
    destruct (given (radii a) && given (atomtypes a)); [reflexivity|].
    now destruct (given (radius_list a)).
  - unfold chosen_color, color_sources.
    destruct (given (color_value_list a)); [reflexivity|].
    destruct (given (color_list a)); [reflexivity|].
    now destruct (given (atomtypes a)).
Qed.

Lemma args_fit_full_call : args_fit full_call.
Proof.
  unfold args_fit, valid_index. simpl.
  repeat split; repeat constructor; simpl; lia.
Qed.

Lemma segments_typed_full_call : segments_typed full_call.
Proof. simpl. discriminate. Qed.

Lemma C4_precedence_witness :
  draw_atomic full_call (new_socket true) =
    (Ok tt,
     after_sends (new_socket true)
       (setup_lines ++
        flat_map (bond_lines full_call) [(0, 1); (-1, 0)] ++
        flat_map (particle_lines full_call) [O; 1%nat] ++
        [])) /\
  chosen_radius full_call = PerType /\
  chosen_color full_call = Continuous.
Proof.
  apply (C4_precedence full_call (new_socket true)).
  - exact args_fit_full_call.
  - exact segments_typed_full_call.
  - reflexivity.
Defined.

Lemma bonds_part_with_segments (a : draw_args) (cst : option (list Z)) :
  bonds_part (with_segments a cst) = bonds_part a.
Proof. reflexivity. Qed.

(** C8. With a [bond_list] whose indices fit, the lines of the bond loop
    hold exactly one cylinder per entry of [bond_list] and no sphere,
    and whatever [connecting_segments_types] is set to, the call writes
    these same lines between the setup lines and the lines of the
    particles, which hold one sphere per particle. *)
Theorem C8_one_cylinder_per_bond (a : draw_args) (bl : list (Z * Z)) :
  bond_list a = Some bl -> args_fit a ->
  bonds_part a = flat_map (bond_lines a) bl /\
  (forall b, count_lines is_cylinder_line (bond_lines a b) = 1%nat) /\
  count_lines is_cylinder_line (bonds_part a) = length bl /\
  count_lines is_sphere_line (bonds_part a) = O /\
  forall (cst : option (list Z)) (s : sock),
    segments_typed (with_segments a cst) -> usable s = true ->
    draw_atomic (with_segments a cst) s =
      (Ok tt,
       after_sends s
         (setup_lines ++ bonds_part a ++
          particles_part (with_segments a cst) ++ reset_part a)) /\
    count_lines is_sphere_line (particles_part (with_segments a cst)) =
      length (configuration a).
Proof.
  intros Hb Hfit.
  assert (E : bonds_part a = flat_map (bond_lines a) bl).
  { unfold bonds_part. now rewrite Hb. }
  split; [exact E|]. split; [apply count_cylinders_bond|].
  split; [|split].
  - rewrite E, (count_lines_flat_map _ _ 1%nat).
    + lia.
    + intros b _. apply count_cylinders_bond.
  - rewrite E, (count_lines_flat_map _ _ O).
    + lia.
    + intros b _. apply count_spheres_bond.
  - intros cst s Htyped Hs. split.
    + exact (draw_atomic_sends (with_segments a cst) Hfit Htyped s Hs).
    + apply (count_spheres_particles (with_segments a cst)).
Qed.

Lemma C8_one_cylinder_per_bond_witness :
  count_lines is_cylinder_line (bonds_part full_call) = 2%nat /\
  draw_atomic (with_segments full_call None) (new_socket true) =
    (Ok tt,
     after_sends (new_socket true)
       (setup_lines ++ bonds_part full_call ++
        particles_part (with_segments full_call None) ++
        reset_part full_call)).
Proof.
  destruct (C8_one_cylinder_per_bond full_call [(0, 1); (-1, 0)]
              eq_refl args_fit_full_call) as (_ & _ & Hc & _ & Hrun).
  split; [exact Hc|].
  apply (Hrun None (new_socket true)); [exact I | reflexivity].
Defined.

(** C9. With a connecting type to compare to, two particles or more and
    no [atomtypes], a call whose other arguments fit raises [TypeError]
    when it subscripts [atomtypes] for the first particle: by then the
    setup lines, the lines of the bonds, the colour line of the first
    particle and its sphere line are written, and nothing after them. *)
Theorem C9_untyped_segments_raise (a : draw_args) (t : Z) (ts : list Z)
  (s : sock) :
  args_fit a ->
  atomtypes a = None ->
  connecting_segments_types a = Some (t :: ts) ->
  (2 <= length (configuration a))%nat ->
  usable s = true ->
  draw_atomic a s =
    (Raise TypeError,
     after_sends s
       (setup_lines ++ bonds_part a ++
        color_line_from a (chosen_color a) 0 ++ [sphere_line a 0])).
Proof.
  intros Hfit Ht Hc Hn Hs. revert s Hs.
  change (sends (draw_atomic a) (Raise TypeError)
            (setup_lines ++ bonds_part a ++
             color_line_from a (chosen_color a) 0 ++ [sphere_line a 0])).
  unfold draw_atomic.
  eapply sends_bind; [apply sends_lines|].
  eapply sends_bind with (a := tt).
  { unfold bonds_part. pose proof Hfit as (_ & _ & _ & _ & Hb).
    destruct (bond_list a) as [bl|]; simpl; [|apply sends_ret].
    apply sends_for_each. intros b Hin.
    rewrite Forall_forall in Hb. destruct (Hb b Hin) as [Hi Hj].
    now apply draw_bond_sends. }
  apply sends_bind_raise.
  destruct (length (configuration a)) as [|n] eqn:En; [lia|].
  simpl seq. apply sends_for_each_raise.
  assert (Hi : valid_index (length (configuration a)) 0)
    by (unfold valid_index; lia).
  unfold draw_particle. simpl Z.of_nat.
  eapply sends_bind; [apply (send_color_sends a Hfit 0 Hi)|].
  change [sphere_line a 0] with ([] ++ [] ++ [sphere_line a 0] ++ []).
  eapply sends_bind; [apply (choose_radius_sends a Hfit 0 Hi)|].
  eapply sends_bind; [apply (position_sends a 0 Hi)|].
  eapply sends_bind; [apply sends_send|].
  rewrite Hc, En.
  destruct (Z.ltb_spec (0 + 1) (Z.of_nat (S n))) as [_|Hge]; [|lia].
  apply sends_for_each_raise. unfold draw_segment. rewrite Ht. simpl.
  apply sends_bind_raise, sends_raise.
Qed.

Lemma C9_untyped_segments_raise_witness :
  draw_atomic untyped_segments (new_socket true) =
    (Raise TypeError,
     after_sends (new_socket true)
       (setup_lines ++ bonds_part untyped_segments ++
        color_line_from untyped_segments (chosen_color untyped_segments) 0 ++
        [sphere_line untyped_segments 0])).
Proof.
  apply (C9_untyped_segments_raise untyped_segments 0 []).
  - unfold args_fit, valid_index. simpl.
    repeat split; repeat constructor; simpl; lia.
  - reflexivity.
  - reflexivity.
  - simpl. lia.
  - reflexivity.
Defined.

(** ** The floor of a colour value times the palette size *)

Lemma Zpos_iter_xO (k : nat) (m : positive) :
  Zpos (Nat.iter k xO m) = Zpos m * 2 ^ Z.of_nat k.
Proof.
  induction k as [|k IH].
  - simpl. lia.
  - rewrite Nat2Z.inj_succ, Z.pow_succ_r by lia.
    simpl Nat.iter. rewrite Pos2Z.inj_xO, IH. lia.
Qed.

Lemma digits2_iter_xO (k : nat) (m : positive) :
  Zpos (digits2_pos (Nat.iter k xO m)) = Zpos (digits2_pos m) + Z.of_nat k.
Proof.
  induction k as [|k IH].
  - simpl. lia.
  - simpl Nat.iter. simpl digits2_pos. rewrite Pos2Z.inj_succ, IH. lia.
Qed.

Lemma digits2_bound (m : positive) : Zpos m < 2 ^ Zpos (digits2_pos m).
Proof.
  induction m as [m IH|m IH|]; simpl digits2_pos;
    rewrite ?Pos2Z.inj_succ, ?Z.pow_succ_r by lia; lia.
Qed.

Lemma iter_pos_nat {A : Type} (f : A -> A) (p : positive) (x : A) :
  iter_pos f p x = Nat.iter (Pos.to_nat p) f x.
Proof.
  revert x. induction p as [p IH|p IH|]; intros x; simpl iter_pos.
  - rewrite !IH, Pos2Nat.inj_xI, <- Nat.iter_add, <- Nat.iter_succ_r.
    f_equal. lia.
  - rewrite !IH, Pos2Nat.inj_xO, <- Nat.iter_add. f_equal. lia.
  - reflexivity.
Qed.

Lemma shr_iter_xO (k : nat) (m : positive) :
  Nat.iter k shr_1 (Build_shr_record (Zpos (Nat.iter k xO m)) false false) =
  Build_shr_record (Zpos m) false false.
Proof.
  induction k as [|k IH]; [reflexivity|].
  rewrite Nat.iter_succ_r. simpl. exact IH.
Qed.

Lemma round_scaled (s : bool) (m : positive) (e : Z) :
  bounded prec emax m e = true -> e <= 961 ->
  exists k : nat,
    (k <= 10)%nat /\
    binary_round_aux prec emax s (Zpos (Nat.iter 52 xO m)) (e + -42)
      loc_Exact =
    S754_finite s (Nat.iter k xO m) (e + 10 - Z.of_nat k).
Proof.
  intros Hb He. unfold bounded, canonical_mantissa in Hb.
  apply andb_true_iff in Hb as [Hc _]. apply Z.eqb_eq in Hc.
  unfold binary_round_aux, shr_fexp.
  change (Zdigits2 (Zpos (Nat.iter 52 xO m)))
    with (Zpos (digits2_pos (Nat.iter 52 xO m))).
  rewrite digits2_iter_xO.
  remember (Nat.iter 52 xO m) as x eqn:Ex.
  set (d := Zpos (digits2_pos m)) in *.
  assert (Hd : 1 <= d) by (unfold d; lia).
  set (n := fexp prec emax (d + Z.of_nat 52 + (e + -42)) - (e + -42)).
  assert (Hn : 42 <= n <= 52 /\
               fexp prec emax (d + Z.of_nat 52 + (e + -42)) = e + -42 + n).
  { unfold n, fexp, emin, prec, emax in *. lia. }
  destruct Hn as [Hn Hf]. clearbody n.
  destruct n as [|p|p]; try lia.
  unfold shr at 1. simpl shr_record_of_loc. rewrite iter_pos_nat.
  set (j := Pos.to_nat p).
  assert (Hj : Zpos p = Z.of_nat j) by (unfold j; lia).
  assert (Hjle : (j <= 52)%nat) by lia.
  remember (52 - j)%nat as k eqn:Ek.
  assert (Hk : Z.of_nat k = 52 - Zpos p) by lia.
  assert (Hsplit : Nat.iter 52 xO m = Nat.iter j xO (Nat.iter k xO m)).
  { rewrite <- Nat.iter_add. f_equal. lia. }
  rewrite Ex, Hsplit, shr_iter_xO. simpl shr_m. simpl loc_of_shr_record.
  simpl round_nearest_even.
  change (Zdigits2 (Zpos (Nat.iter k xO m)))
    with (Zpos (digits2_pos (Nat.iter k xO m))).
  rewrite digits2_iter_xO. fold d.
  replace (fexp prec emax (d + Z.of_nat k + (e + -42 + Zpos p))
           - (e + -42 + Zpos p)) with 0.
  - cbv beta iota zeta delta [shr shr_m].
    destruct (Z.leb_spec (e + -42 + Zpos p) (emax - prec)) as [_|Hgt].
    + exists k. split; [lia|]. f_equal. lia.
    + unfold emax, prec in Hgt. lia.
  - replace (d + Z.of_nat k + (e + -42 + Zpos p))
      with (d + Z.of_nat 52 + (e + -42)) by lia.
    rewrite Hf. lia.
Qed.

Lemma Prim2SF_ncolors :
  Prim2SF (float_of_int VMDNCOLORS) =
  S754_finite false 4503599627370496 (-42).
Proof. vm_compute. reflexivity. Qed.

Lemma mul_ncolors_finite (v : float) (s : bool) (m : positive) (e : Z) :
  Prim2SF v = S754_finite s m e -> e <= 961 ->
  exists k : nat,
    (k <= 10)%nat /\
    Prim2SF (v * float_of_int VMDNCOLORS)%float =
    S754_finite s (Nat.iter k xO m) (e + 10 - Z.of_nat k).
Proof.
  intros E He. pose proof (Prim2SF_valid v) as Hv. rewrite E in Hv.
  simpl in Hv. destruct (round_scaled s m e Hv He) as (k & Hk & Hr).
  exists k. split; [exact Hk|].
  rewrite mul_spec, E, Prim2SF_ncolors. unfold SF64mul, SFmul.
  rewrite xorb_false_r, <- Hr. f_equal. f_equal.
  apply Pos2Z.inj. rewrite Pos2Z.inj_mul, Zpos_iter_xO. reflexivity.
Qed.

Lemma shiftl_iter_xO (k : nat) (m : positive) (e : Z) :
  Z.shiftl (Zpos (Nat.iter k xO m)) (e - Z.of_nat k) = Z.shiftl (Zpos m) e.
Proof.
  rewrite Zpos_iter_xO, <- Z.shiftl_mul_pow2 by lia.
  rewrite Z.shiftl_shiftl by lia. f_equal. lia.
Qed.

(** For a colour value from zero to one, the floating-point product by
    1024 is exact: its floor is the floor of the exact product, a number
    from 0 to 1024. *)
Lemma floor_scaled_unit (v : float) :
  (0 <=? v)%float = true -> (v <=? 1)%float = true ->
  floor_to_int (v * float_of_int VMDNCOLORS)%float = exact_floor_scaled v /\
  0 <= exact_floor_scaled v <= 1024.
Proof.
  rewrite !leb_spec. unfold exact_floor_scaled, floor_to_int.
  change (Prim2SF 0) with (S754_zero false).
  change (Prim2SF 1) with (S754_finite false 4503599627370496 (-52)).
  destruct (Prim2SF v) as [s|s| |s m e] eqn:E; intros H0 H1.
  - rewrite mul_spec, E, Prim2SF_ncolors. simpl. lia.
  - destruct s; discriminate.
  - discriminate.
  - destruct s; [discriminate|].
    pose proof (Prim2SF_valid v) as Hv. rewrite E in Hv. simpl in Hv.
    unfold bounded, canonical_mantissa in Hv.
    apply andb_true_iff in Hv as [Hc _]. apply Z.eqb_eq in Hc.
    pose proof (digits2_bound m) as Hm.
    set (d := Zpos (digits2_pos m)) in *.
    assert (Hd : 1 <= d <= 53).
    { unfold d, fexp, emin, prec, emax in *. lia. }
    assert (Hle : e <= -52 /\ Zpos m <= 2 ^ (- e)).
    { unfold SFleb, SFcompare in H1.
      destruct (Z.compare_spec e (-52)) as [->|Hlt|Hgt]; try discriminate.
      - split; [lia|].
        rewrite Pos.compare_cont_spec in H1. simpl Pos.switch_Eq in H1.
        replace (2 ^ (- -52)) with 4503599627370496 by reflexivity.
        destruct (Pos.compare_spec m 4503599627370496) as [->|Hl|Hg];
          [apply Z.le_refl | | discriminate].
        apply Z.lt_le_incl, Pos2Z.pos_lt_pos. exact Hl.
      - split; [lia|].
        apply Z.lt_le_incl, (Z.lt_le_trans _ (2 ^ d)); [exact Hm|].
        apply (Z.le_trans _ (2 ^ 53)); apply Z.pow_le_mono_r; lia. }
    destruct Hle as [He Hme].
    destruct (mul_ncolors_finite v false m e E) as (k & Hk & ->); [lia|].
    replace (e + 10 - Z.of_nat k) with ((e + 10) - Z.of_nat k) by lia.
    rewrite shiftl_iter_xO.
    assert (Hb : 0 <= Z.shiftl (Zpos m) (e + 10) <= 1024).
    { rewrite Z.shiftl_div_pow2 by lia. split.
      - apply Z.div_pos; [lia|]. apply Z.pow_pos_nonneg; lia.
      - apply Z.div_le_upper_bound; [apply Z.pow_pos_nonneg; lia|].
        replace (2 ^ (- (e + 10)) * 1024) with (2 ^ (- e)); [exact Hme|].
        replace (- e) with (- (e + 10) + 10) by lia.
        rewrite Z.pow_add_r by lia. reflexivity. }
    replace ((int64_min <=? Z.shiftl (Zpos m) (e + 10)) &&
             (Z.shiftl (Zpos m) (e + 10) <=? int64_max)) with true.
    + split; [reflexivity | exact Hb].
    + symmetry. apply andb_true_iff. unfold int64_min, int64_max.
      split; apply Z.leb_le; lia.
Qed.

Lemma wrap64_small (z : Z) : int64_min <= z <= int64_max -> wrap64 z = z.
Proof.
  unfold wrap64, int64_min, int64_max. intros H.
  rewrite Z.mod_small; lia.
Qed.

Lemma filter_color_particle (a : draw_args) (k : nat) :
  filter is_color_line (particle_lines a k) =
  color_line_from a (chosen_color a) (Z.of_nat k).
Proof.
  unfold particle_lines. rewrite !filter_app.
  assert (Hseg : filter is_color_line (segment_lines a (Z.of_nat k)) = []).
  { pose proof (segment_lines_kind a (Z.of_nat k)) as H.
    induction H as [|l ls (_ & _ & Hl) _ IH]; simpl; [reflexivity|].
    now rewrite Hl. }
  rewrite Hseg. unfold sphere_line. simpl. rewrite app_nil_r.
  pose proof (color_line_from_kind a (chosen_color a) (Z.of_nat k)) as H.
  induction H as [|l ls (Hl & _) _ IH]; simpl; [reflexivity|].
  now rewrite Hl, IH.
Qed.

Lemma draw_atomic_with_color_list (a : draw_args) (cl : option (list Z)) :
  color_value_list a <> None ->
  draw_atomic (with_color_list a cl) = draw_atomic a.
Proof.
  intros H. unfold draw_atomic, readjust_color_list. simpl.
  destruct (color_value_list a) as [vs|] eqn:E; [|congruence].
  reflexivity.
Qed.

(** C1, as the code has it.  With [color_value_list] given, one value
    from zero to one per particle, a call whose arguments fit writes for
    particle [i] the colour line of the id
    [floor(color_value_list[i] * 1024) + 33]: the floor (of the
    floating-point product, which is exact here, a number from 0 to
    1024) plus the palette start [VMDSTARTCOLOR]; and the call does the
    same whatever [color_list] is passed along. *)
Theorem C1_continuous_color_offset (a : draw_args) (values : list float)
  (s : sock) :
  color_value_list a = Some values ->
  Forall in_unit values ->
  args_fit a -> segments_typed a -> usable s = true ->
  draw_atomic a s =
    (Ok tt,
     after_sends s
       (setup_lines ++ bonds_part a ++ particles_part a ++ reset_part a)) /\
  filter is_color_line (particles_part a) =
    map (fun v =>
           fmt_draw_color
             (floor_to_int (v * float_of_int VMDNCOLORS)%float
              + VMDSTARTCOLOR))
        values /\
  Forall (fun v =>
            floor_to_int (v * float_of_int VMDNCOLORS)%float =
              exact_floor_scaled v /\
            0 <= exact_floor_scaled v <= 1024)
         values /\
  forall cl : option (list Z),
    draw_atomic (with_color_list a cl) s = draw_atomic a s.
Proof.
  intros Hv Hunit Hfit Htyped Hs. split; [|split; [|split]].
  - exact (draw_atomic_sends a Hfit Htyped s Hs).
  - pose proof Hfit as (_ & _ & Hlen & _). rewrite Hv in Hlen.
    simpl in Hlen.
    transitivity
      (map (fun v =>
              fmt_draw_color
                (wrap64 (floor_to_int (v * float_of_int VMDNCOLORS)%float
                         + VMDSTARTCOLOR)))
           values).
    + unfold particles_part. rewrite <- Hlen.
      rewrite <- (map_nth_seq
                    (fun v => fmt_draw_color
                                (wrap64 (floor_to_int
                                           (v * float_of_int VMDNCOLORS)%float
                                         + VMDSTARTCOLOR)))
                    0%float values).
      induction (seq 0 (length values)) as [|k ks IH] using rev_ind;
        [reflexivity|].
      rewrite flat_map_app, filter_app, map_app, IH. f_equal.
      simpl. rewrite app_nil_r, filter_color_particle.
      unfold chosen_color, color_sources, color_line_from. rewrite Hv. simpl.
      unfold continuous_color_id.
      destruct (Nat.lt_ge_cases k (length values)) as [Hk|Hk].
      * now rewrite np_nth_of_nat.
      * rewrite nth_overflow by lia. unfold np_nth, np_get.
        destruct (Z.ltb_spec (Z.of_nat k) (Z.of_nat (length values)));
          [lia|].
        rewrite andb_false_r.
        destruct (Z.ltb_spec (Z.of_nat k) 0); [lia|].
        now rewrite andb_false_r.
    + apply map_ext_in. intros v Hin. f_equal.
      rewrite Forall_forall in Hunit. destruct (Hunit v Hin) as [H0 H1].
      destruct (floor_scaled_unit v H0 H1) as [E Hb].
      apply wrap64_small. rewrite E.
      unfold int64_min, int64_max, VMDSTARTCOLOR. lia.
  - eapply Forall_impl; [|exact Hunit].
    intros v [H0 H1]. exact (floor_scaled_unit v H0 H1).
  - intros cl. rewrite draw_atomic_with_color_list; [reflexivity|].
    congruence.
Qed.

Lemma C1_continuous_color_offset_witness :
  filter is_color_line (particles_part full_call) =
    [fmt_draw_color 545; fmt_draw_color 1057] /\
  draw_atomic (with_color_list full_call None) (new_socket true) =
    draw_atomic full_call (new_socket true).
Proof.
  destruct (C1_continuous_color_offset full_call [0.5%float; 1%float]
              (new_socket true) eq_refl) as (_ & Hc & _ & Hi).
  - repeat constructor.
  - exact args_fit_full_call.
  - exact segments_typed_full_call.
  - reflexivity.
  - split; [exact Hc | exact (Hi None)].
Defined.

(** C1 as the specification words it fails: for one particle with the
    colour value one half, whose floor times 1024 is 512, the colour
    line written carries the id 545. *)
Lemma C1_counterexample :
  floor_to_int (0.5 * float_of_int VMDNCOLORS)%float = 512 /\
  sent (log (snd (draw_atomic half_colored (new_socket true)))) =
    setup_lines ++
    [fmt_draw_color 545; fmt_draw_sphere origin 0.5%float 30] ++
    reset_lines /\
  fmt_draw_color 545 <> fmt_draw_color 512.
Proof.
  split; [reflexivity|]. split; [reflexivity|]. discriminate.
Qed.

(** ** [vmdstop] *)

Lemma sent_app (l1 l2 : list sock_event) :
  sent (l1 ++ l2) = sent l1 ++ sent l2.
Proof.
  induction l1 as [|[d|] l1 IH]; simpl; [reflexivity| |assumption].
  now rewrite IH.
Qed.

(** C7. On the open end of a session, whatever was written to it before
    (nothing, or any number of draw calls), [vmdstop] returns after
    adding exactly two events to the socket: the write of [exit] and a
    newline, then the close. *)
Theorem C7_exit_then_close (s : sock) :
  usable s = true ->
  fst (vmdstop s) = Ok tt /\
  connected (snd (vmdstop s)) = connected s /\
  log (snd (vmdstop s)) = log s ++ [EvSend ("exit" ++ nl)%string; EvClose] /\
  sent (log (snd (vmdstop s))) = sent (log s) ++ [("exit" ++ nl)%string] /\
  closed (snd (vmdstop s)) = true.
Proof.
  intros Hs. apply usable_inv in Hs as [Hc Ho].
  assert (E : vmdstop s =
              (Ok tt,
               {| connected := connected s;
                  log := log s ++ [EvSend ("exit" ++ nl)%string; EvClose] |})).
  { unfold vmdstop, bind, send, close, record_event.
    rewrite Ho, Hc. simpl. now rewrite <- app_assoc. }
  rewrite E. simpl. repeat split.
  - now rewrite sent_app.
  - unfold closed. simpl. rewrite existsb_app. simpl. apply orb_true_r.
Qed.

Lemma C7_exit_then_close_witness :
  log (snd (vmdstop (new_socket true))) =
    [EvSend ("exit" ++ nl)%string; EvClose] /\
  log (snd (vmdstop (snd (draw_atomic full_call (new_socket true))))) =
    log (snd (draw_atomic full_call (new_socket true))) ++
    [EvSend ("exit" ++ nl)%string; EvClose].
Proof.
  split.
  - apply (C7_exit_then_close (new_socket true)). reflexivity.
  - apply (C7_exit_then_close
             (snd (draw_atomic full_call (new_socket true)))).
    reflexivity.
Defined.

(** ** [set_colorscale] *)

Lemma length_range (k : Z) : 0 <= k -> Z.of_nat (length (range k)) = k.
Proof.
  intros H. unfold range. rewrite length_map, length_seq. lia.
Qed.

Lemma nth_error_range (k i : Z) :
  0 <= i < k -> nth_error (range k) (Z.to_nat i) = Some i.
Proof.
  intros H. unfold range. rewrite nth_error_map, nth_error_seq.
  destruct (Nat.ltb_spec (Z.to_nat i) (Z.to_nat k)) as [_|Hge]; [|lia].
  simpl. f_equal. lia.
Qed.

(** C5. On a usable socket, [set_colorscale] with the empty string for
    the colormap writes the one line that resets the colour scale; with
    another name, one matplotlib has a colormap for, and [k >= 0]
    colours it writes exactly [k] lines [color change rgb], the [i]-th
    of them for the colour id [startcolorid + i]. *)
Theorem C5_colorscale_lines
  (cmap_discretize : Z -> string -> result colormap_obj)
  (k startcolorid : Z) (s : sock) :
  usable s = true ->
  set_colorscale cmap_discretize "" k startcolorid s =
    (Ok tt, after_sends s [("color scale method RGB" ++ nl)%string]) /\
  forall (colormap : string) (colors : colormap_obj),
    colormap <> ""%string ->
    0 <= k ->
    cmap_discretize k colormap = Ok colors ->
    let line i :=
      let '(r, g, b, _) :=
        colors (float_of_int i / float_of_int k)%float in
      fmt_color_change (startcolorid + i) r g b in
    set_colorscale cmap_discretize colormap k startcolorid s =
      (Ok tt, after_sends s (map line (range k))) /\
    Z.of_nat (length (map line (range k))) = k /\
    forall i, 0 <= i < k ->
      nth_error (map line (range k)) (Z.to_nat i) = Some (line i).
Proof.
  intros Hs. split.
  - unfold set_colorscale. simpl. apply (sends_send _ s Hs).
  - intros colormap colors Hne Hk Hc line. split; [|split].
    + unfold set_colorscale.
      destruct (String.eqb_spec colormap "") as [E|_]; [contradiction|].
      rewrite Hc. rewrite <- flat_map_singleton.
      apply sends_for_each; [|exact Hs].
      intros i _. unfold line.
      destruct (colors (float_of_int i / float_of_int k)%float)
        as [[[r g] b] al].
      apply sends_send.
    + rewrite length_map. now apply length_range.
    + intros i Hi. rewrite nth_error_map, nth_error_range by assumption.
      reflexivity.
Qed.

Lemma C5_colorscale_lines_witness :
  set_colorscale grey_map "" 2 33 (new_socket true) =
    (Ok tt,
     after_sends (new_socket true) [("color scale method RGB" ++ nl)%string])
  /\
  set_colorscale grey_map "jet" 2 33 (new_socket true) =
    (Ok tt,
     after_sends (new_socket true)
       [fmt_color_change 33 0%float 0%float 0%float;
        fmt_color_change 34 0.5%float 0.5%float 0.5%float]).
Proof.
  destruct (C5_colorscale_lines grey_map 2 33 (new_socket true) eq_refl)
    as [Hreset Hmap].
  split; [exact Hreset|].
  destruct (Hmap "jet"%string (fun x => (x, x, x, 1%float))) as (Hrun & _).
  - discriminate.
  - lia.
  - reflexivity.
  - exact Hrun.
Defined.

(** ** [vmdstart] *)

Section ConnectLoop.

Variable eisconn : Z.
Variable net : nat -> connect_outcome.
Variable port : Z.



End ConnectLoop.




(** ** [load_xyzfile]: lines and tokens *)

Lemma append_assoc' (a b c : string) :
  ((a ++ b) ++ c)%string = (a ++ b ++ c)%string.
Proof. induction a as [|x a IH]; simpl; congruence. Qed.

Lemma append_empty_r (a : string) : (a ++ "")%string = a.
Proof. induction a as [|x a IH]; simpl; congruence. Qed.

Lemma line_of_not_empty (b : string) : line_of b <> EmptyString.
Proof. destruct b; discriminate. Qed.

Lemma lines_from_body (b cur rest : string) :
  text_line b ->
  lines_from false cur (b ++ nl ++ rest)%string =
  (cur ++ b ++ nl)%string :: lines_from false EmptyString rest.
Proof.
  revert cur. induction b as [|c b IH]; intros cur Hb; simpl.
  - reflexivity.
  - destruct Hb as (Hc & Hr & Hb). unfold newline in Hc.
    unfold carriage_return in Hr. rewrite Hc, Hr.
    rewrite (IH _ Hb). now rewrite append_assoc'.
Qed.

Lemma open_unlines (bodies : list string) :
  Forall text_line bodies -> open (unlines bodies) = map line_of bodies.
Proof.
  unfold open. induction 1 as [|b bs Hb _ IH]; [reflexivity|].
  change (unlines (b :: bs)) with (b ++ nl ++ unlines bs)%string.
  rewrite (lines_from_body b EmptyString _ Hb). simpl. now rewrite IH.
Qed.

Lemma split_from_line (cur b : string) :
  split_from cur (line_of b) = split_from cur b.
Proof.
  unfold line_of. revert cur. induction b as [|c b IH]; intros cur; simpl.
  - now destruct cur.
  - destruct (is_space c); [destruct cur|]; now rewrite ?IH.
Qed.

Lemma str_split_line (b : string) : str_split (line_of b) = str_split b.
Proof. apply split_from_line. Qed.

Lemma parse_particle_line (b : string) :
  parse_particle (line_of b) = parse_particle b.
Proof. unfold parse_particle. now rewrite str_split_line. Qed.

(** ** [load_xyzfile]: the numbering of atom types *)

Lemma index_of_Some (t : string) (l : list string) (k : nat) :
  index_of t l = Some k -> nth_error l k = Some t.
Proof.
  revert k. induction l as [|x l IH]; intros k; simpl; [discriminate|].
  destruct (String.eqb_spec t x) as [->|_].
  - intros [= <-]. reflexivity.
  - destruct (index_of t l) as [j|]; [|discriminate].
    intros [= <-]. now apply IH.
Qed.

Lemma index_of_None (t : string) (l : list string) :
  index_of t l = None <-> ~ In t l.
Proof.
  induction l as [|x l IH]; simpl; [tauto|].
  destruct (String.eqb_spec t x) as [->|Hne].
  - split; [discriminate | intros H; exfalso; apply H; now left].
  - destruct (index_of t l) as [j|]; simpl.
    + split; [discriminate|]. intros H. exfalso. apply H. right.
      destruct (in_dec string_dec t l) as [Hin|Hnin]; [assumption|].
      apply IH in Hnin. discriminate.
    + split; [|reflexivity]. intros _ [E|Hin]; [congruence|].
      now apply (proj1 IH).
Qed.

Lemma mem_iff (t : string) (l : list string) : mem t l = true <-> In t l.
Proof.
  unfold mem. pose proof (index_of_None t l) as H.
  destruct (index_of t l).
  - split; [intros _|reflexivity].
    destruct (in_dec string_dec t l) as [Hin|Hnin]; [assumption|].
    apply H in Hnin. discriminate.
  - split; [discriminate|]. intros Hin. exfalso. now apply (proj1 H).
Qed.

Lemma mem_false_iff (t : string) (l : list string) :
  mem t l = false <-> ~ In t l.
Proof.
  rewrite <- mem_iff. destruct (mem t l); split; congruence.
Qed.

Lemma distinct_from_mem (seen l : list string) :
  distinct_from seen l =
  match l with
  | [] => []
  | x :: l' =>
      if mem x seen then distinct_from seen l'
      else x :: distinct_from (seen ++ [x]) l'
  end.
Proof. destruct l; [reflexivity|]. unfold mem. simpl. now destruct index_of. Qed.

Lemma in_distinct_from (x : string) (seen l : list string) :
  In x (distinct_from seen l) <-> In x l /\ ~ In x seen.
Proof.
  revert seen. induction l as [|y l IH]; intros seen.
  - simpl. tauto.
  - rewrite distinct_from_mem. destruct (mem y seen) eqn:E.
    + rewrite IH. apply mem_iff in E. simpl. split.
      * tauto.
      * intros [[->|H] Hn]; tauto.
    + apply mem_false_iff in E. simpl. rewrite IH, in_app_iff. simpl.
      split.
      * intros [->|[H Hn]]; tauto.
      * intros [[->|H] Hn]; [tauto|].
        destruct (string_dec y x) as [->|Hne]; [tauto|]. right. tauto.
Qed.

Lemma distinct_from_snoc (seen p : list string) (t : string) :
  distinct_from seen (p ++ [t]) =
  distinct_from seen p ++ (if mem t (seen ++ p) then [] else [t]).
Proof.
  revert seen. induction p as [|x p IH]; intros seen.
  - simpl app. rewrite app_nil_r, distinct_from_mem.
    now destruct (mem t seen).
  - rewrite <- app_comm_cons.
    rewrite (distinct_from_mem seen (x :: p ++ [t])).
    rewrite (distinct_from_mem seen (x :: p)).
    destruct (mem x seen) eqn:E.
    + rewrite IH. f_equal. apply mem_iff in E.
      replace (mem t (seen ++ x :: p)) with (mem t (seen ++ p));
        [reflexivity|].
      destruct (mem t (seen ++ x :: p)) eqn:E2.
      * apply mem_iff. apply mem_iff in E2. rewrite in_app_iff in *.
        simpl in E2. destruct E2 as [H|[->|H]]; tauto.
      * apply mem_false_iff. apply mem_false_iff in E2.
        rewrite in_app_iff in *. simpl in E2. tauto.
    + rewrite IH. simpl. f_equal. now rewrite <- app_assoc.
Qed.

Lemma first_pos_le (t : string) (l : list string) :
  (first_pos t l <= length l)%nat.
Proof.
  induction l as [|x l IH]; simpl; [lia|].
  destruct (String.eqb t x); lia.
Qed.

Lemma first_pos_app_in (t : string) (p q : list string) :
  In t p -> first_pos t (p ++ q) = first_pos t p.
Proof.
  induction p as [|x p IH]; simpl; [tauto|].
  destruct (String.eqb_spec t x) as [_|Hne]; [reflexivity|].
  intros [E|H]; [congruence|]. now rewrite IH.
Qed.

Lemma first_pos_app_here (t : string) (p q : list string) :
  ~ In t p -> first_pos t (p ++ t :: q) = length p.
Proof.
  induction p as [|x p IH]; simpl.
  - now rewrite String.eqb_refl.
  - destruct (String.eqb_spec t x) as [->|Hne]; [tauto|].
    intros H. rewrite IH; tauto.
Qed.

Lemma index_of_distinct_from (t : string) (seen p : list string) :
  ~ In t seen -> In t p ->
  index_of t (distinct_from seen p) =
  Some (length (distinct_from seen (firstn (first_pos t p) p))).
Proof.
  revert seen. induction p as [|x p IH]; intros seen Hs Hp; [destruct Hp|].
  rewrite distinct_from_mem. simpl first_pos.
  destruct (String.eqb_spec t x) as [<-|Hne].
  - apply mem_false_iff in Hs. rewrite Hs. simpl.
    now rewrite String.eqb_refl.
  - destruct Hp as [E|Hp]; [congruence|].
    simpl firstn. rewrite (distinct_from_mem seen (x :: _)).
    destruct (mem x seen).
    + now apply IH.
    + simpl. destruct (String.eqb_spec t x) as [E|_]; [congruence|].
      rewrite IH; [reflexivity| |assumption].
      rewrite in_app_iff. simpl. intros [H|[H|[]]]; congruence.
Qed.

Lemma type_number_seen (p q : list string) (t : string) (k : nat) :
  index_of t (distinct p) = Some k ->
  type_number (p ++ t :: q) t = Z.of_nat k.
Proof.
  intros Hk.
  assert (Hin : In t p).
  { apply index_of_Some, nth_error_In, in_distinct_from in Hk. tauto. }
  unfold type_number. rewrite first_pos_app_in by assumption.
  rewrite firstn_app.
  replace (first_pos t p - length p)%nat with O
    by (pose proof (first_pos_le t p); lia).
  simpl firstn. rewrite app_nil_r.
  unfold distinct in *.
  rewrite index_of_distinct_from in Hk by (auto using in_nil).
  now injection Hk as <-.
Qed.

Lemma type_number_new (p q : list string) (t : string) :
  index_of t (distinct p) = None ->
  type_number (p ++ t :: q) t = Z.of_nat (length (distinct p)).
Proof.
  intros Hk.
  assert (Hin : ~ In t p).
  { apply index_of_None in Hk. intros H. apply Hk.
    apply in_distinct_from. split; [assumption|apply in_nil]. }
  unfold type_number. rewrite first_pos_app_here by assumption.
  rewrite firstn_app, firstn_all, Nat.sub_diag. simpl firstn.
  now rewrite app_nil_r.
Qed.

Lemma distinct_snoc (p : list string) (t : string) :
  distinct (p ++ [t]) =
  match index_of t (distinct p) with
  | Some _ => distinct p
  | None => distinct p ++ [t]
  end.
Proof.
  unfold distinct. rewrite distinct_from_snoc. simpl app.
  destruct (index_of t (distinct_from [] p)) eqn:E.
  - replace (mem t p) with true; [now rewrite app_nil_r|].
    symmetry. apply mem_iff.
    apply index_of_Some, nth_error_In, in_distinct_from in E. tauto.
  - replace (mem t p) with false; [reflexivity|].
    symmetry. apply mem_false_iff. apply index_of_None in E.
    intros H. apply E. apply in_distinct_from. split; [assumption|apply in_nil].
Qed.

Lemma numeric_atomtype_spec (p q : list string) (t : string) :
  numeric_atomtype t (distinct p) =
  (type_number (p ++ t :: q) t, distinct (p ++ [t])).
Proof.
  unfold numeric_atomtype. rewrite distinct_snoc.
  destruct (index_of t (distinct p)) as [k|] eqn:E.
  - now rewrite (type_number_seen p q t k E).
  - now rewrite (type_number_new p q t E).
Qed.

Lemma number_types_spec (tys p q : list string) :
  number_types (distinct p) tys =
  (map (type_number (p ++ tys ++ q)) tys, distinct (p ++ tys)).
Proof.
  revert p. induction tys as [|t ts IH]; intros p; simpl.
  - now rewrite app_nil_r.
  - rewrite (numeric_atomtype_spec p (ts ++ q) t).
    rewrite (IH (p ++ [t])). now rewrite <- !app_assoc.
Qed.

(** ** [load_xyzfile]: frames *)

Lemma particle_ok_parse (b : string) :
  particle_ok b ->
  parse_particle (line_of b) = Ok (particle_type b, particle_position b).
Proof.
  intros (_ & t & p & E). rewrite parse_particle_line.
  unfold particle_type, particle_position. now rewrite E.
Qed.

Lemma read_particles_ok (bodies : list string) (rest : file)
  (labels : list string) :
  Forall particle_ok bodies ->
  read_particles (length bodies) (map line_of bodies ++ rest) labels =
  Ok (map particle_position bodies,
      fst (number_types labels (map particle_type bodies)),
      rest,
      snd (number_types labels (map particle_type bodies))).
Proof.
  intros H. revert labels.
  induction H as [|b bs Hb _ IH]; intros labels; [reflexivity|].
  simpl. rewrite (particle_ok_parse b Hb).
  destruct (numeric_atomtype (particle_type b) labels) as [k labels1].
  rewrite IH.
  now destruct (number_types labels1 (map particle_type bs)).
Qed.

Lemma lines_of_cons (f : frame_text) (fs : list frame_text) :
  lines_of (f :: fs) =
  line_of (header f) ::
  map line_of (particles f) ++ line_of (box f) :: lines_of fs.
Proof.
  unfold lines_of, frame_bodies. simpl.
  rewrite !map_app, <- app_assoc. reflexivity.
Qed.

Lemma readline_hd_tl (fh : file) :
  readline fh = (hd EmptyString fh, tl fh).
Proof. now destruct fh. Qed.

Lemma np_zeros_allocates (zeros : allocator) (k N : nat) :
  allocates zeros (Z.of_nat N) -> np_zeros zeros k (Z.of_nat N) = None.
Proof.
  intros H. unfold np_zeros. rewrite (H k).
  destruct (Z.ltb_spec (Z.of_nat N) 0) as [?|_]; [lia | reflexivity].
Qed.

Lemma load_frames_ok (zeros : allocator) (N : nat) (all : list string)
  (fs : list frame_text) :
  forall (p : list string) (fuel k : nat) (trajectory : list (list point))
         (atomtype_list : list (list Z)) (boxsize_list : list (list float)),
  allocates zeros (Z.of_nat N) ->
  all = p ++ concat (map frame_types fs) ->
  Forall (frame_ok N) fs ->
  (length fs < fuel)%nat ->
  load_frames zeros fuel k (Z.of_nat N) (hd EmptyString (lines_of fs))
    (tl (lines_of fs)) (distinct p)
    (trajectory, atomtype_list, boxsize_list) =
  Some (Ok (trajectory ++ map frame_positions fs,
            atomtype_list ++
              map (fun f => map (type_number all) (frame_types f)) fs,
            boxsize_list ++ map (fun f => box_size (box f)) fs)).
Proof.
  induction fs as [|f fs IH];
    intros p fuel k trajectory atomtype_list boxsize_list Hz Hall Hok Hfuel.
  - destruct fuel as [|fuel]; [simpl in Hfuel; lia|].
    simpl. now rewrite !app_nil_r.
  - destruct fuel as [|fuel]; [simpl in Hfuel; lia|].
    rewrite lines_of_cons. simpl hd. simpl tl.
    inversion Hok as [|f' fs' (Hh & Hlen & Hps & Hb & x & y & z & Hbox) Hoks];
      subst f' fs'.
    simpl load_frames.
    destruct (line_of (header f)) as [|c hs] eqn:Eh;
      [now apply line_of_not_empty in Eh|].
    rewrite (np_zeros_allocates zeros k N Hz).
    rewrite Nat2Z.id.
    pose proof (read_particles_ok (particles f)
                  (line_of (box f) :: lines_of fs) (distinct p) Hps) as Hr.
    rewrite Hlen in Hr. rewrite Hr. simpl readline. cbv beta iota zeta.
    rewrite str_split_line, Hbox, readline_hd_tl.
    simpl map in Hall. fold (frame_types f).
    rewrite (number_types_spec (frame_types f) p
               (concat (map frame_types fs))).
    simpl fst. simpl snd. simpl concat in Hall. rewrite <- Hall.
    rewrite (IH (p ++ frame_types f)).
    + simpl map. unfold box_size at 2. rewrite Hbox.
      now rewrite <- !app_assoc.
    + assumption.
    + now rewrite <- app_assoc.
    + assumption.
    + simpl in Hfuel. lia.
Qed.

Lemma type_number_index (all : list string) (t : string) :
  In t all ->
  index_of t (distinct all) = Some (Z.to_nat (type_number all t)).
Proof.
  intros H. unfold distinct, type_number.
  rewrite (index_of_distinct_from t [] all) by (auto using in_nil).
  now rewrite Nat2Z.id.
Qed.

Lemma type_number_injective (all : list string) (t t' : string) :
  In t all -> In t' all ->
  type_number all t = type_number all t' -> t = t'.
Proof.
  intros H H' E.
  apply type_number_index, index_of_Some in H.
  apply type_number_index, index_of_Some in H'.
  rewrite E in H. congruence.
Qed.

Lemma distinct_from_app (seen p q : list string) :
  distinct_from seen (p ++ q) =
  distinct_from seen p ++ distinct_from (seen ++ distinct_from seen p) q.
Proof.
  revert seen. induction p as [|x p IH]; intros seen.
  - simpl. now rewrite app_nil_r.
  - rewrite <- app_comm_cons, (distinct_from_mem seen (x :: p ++ q)),
      (distinct_from_mem seen (x :: p)).
    destruct (mem x seen); [apply IH|].
    rewrite IH. simpl. now rewrite <- app_assoc.
Qed.

Lemma first_pos_split (t : string) (l : list string) :
  In t l ->
  l = firstn (first_pos t l) l ++ t :: skipn (S (first_pos t l)) l /\
  ~ In t (firstn (first_pos t l) l).
Proof.
  induction l as [|x l IH]; intros H; [destruct H|]. simpl first_pos.
  destruct (String.eqb_spec t x) as [<-|Hne].
  - simpl. tauto.
  - destruct H as [E|H]; [congruence|]. destruct (IH H) as [E Hn].
    simpl. split; [f_equal; exact E|]. intros [E'|H']; [congruence|tauto].
Qed.

Lemma type_number_order (all : list string) (t t' : string) :
  In t all -> In t' all ->
  (first_pos t all < first_pos t' all)%nat ->
  type_number all t < type_number all t'.
Proof.
  intros H H' Hlt. unfold type_number. apply inj_lt.
  destruct (first_pos_split t all H) as [E Hn].
  set (pre := firstn (first_pos t all) all) in *.
  set (post := skipn (S (first_pos t all)) all) in *.
  assert (Hlen : length pre = first_pos t all).
  { unfold pre. apply firstn_length_le, first_pos_le. }
  rewrite E at 2. rewrite firstn_app, Hlen.
  rewrite (firstn_all2 (n := first_pos t' all) pre) by lia.
  destruct (first_pos t' all - first_pos t all)%nat as [|d] eqn:Ed; [lia|].
  simpl firstn. unfold distinct. rewrite distinct_from_app. simpl app.
  destruct (index_of t (distinct_from [] pre)) as [k|] eqn:Ei.
  - apply index_of_Some, nth_error_In, in_distinct_from in Ei. tauto.
  - rewrite length_app. simpl. lia.
Qed.

Lemma frame_bodies_text_line (N : nat) (fs : list frame_text) :
  Forall (frame_ok N) fs -> Forall text_line (flat_map frame_bodies fs).
Proof.
  induction 1 as [|f fs (Hh & _ & Hps & Hb & _) _ IH]; simpl; [constructor|].
  constructor; [assumption|]. rewrite <- app_assoc. apply Forall_app. split.
  - eapply Forall_impl; [|exact Hps]. now intros b [Hb' _].
  - now constructor.
Qed.

(** C2, as the code has it.  For a text of [F >= 1] frames, each made of
    a header line of its own, [N] particle lines and a line of three
    numbers, where the first header starts with [N], on a machine that
    has room for the arrays of a frame, the reader returns
    [F] arrays of [N] positions, [F] arrays of [N] type numbers and [F]
    boxes of three numbers; the number of an atom type is the count of
    distinct atom types that occur before it in the whole text, so
    different types get different numbers and a type has one number in
    all frames. *)
Theorem C2_reader_frames (zeros : allocator) (N : nat)
  (frames : list frame_text) :
  allocates zeros (Z.of_nat N) ->
  trajectory_ok N frames ->
  let all_types := concat (map frame_types frames) in
  let trajectory := map frame_positions frames in
  let atomtype_list :=
    map (fun f => map (type_number all_types) (frame_types f)) frames in
  let boxsize_list := map (fun f => box_size (box f)) frames in
  load_xyzfile zeros (trajectory_text frames) =
    Some (Ok (trajectory, atomtype_list, boxsize_list)) /\
  length trajectory = length frames /\
  length atomtype_list = length frames /\
  length boxsize_list = length frames /\
  Forall (fun c => length c = N) trajectory /\
  Forall (fun ts => length ts = N) atomtype_list /\
  Forall (fun b => length b = 3%nat) boxsize_list /\
  (forall t t', In t all_types -> In t' all_types ->
     type_number all_types t = type_number all_types t' -> t = t') /\
  (forall t t', In t all_types -> In t' all_types ->
     (first_pos t all_types < first_pos t' all_types)%nat ->
     type_number all_types t < type_number all_types t').
Proof.
  intros Hz ((tok & rest & Htok & HN) & Hne & Hok)
         all_types trajectory atomtype_list boxsize_list.
  split; [|repeat split].
  - unfold load_xyzfile, trajectory_text.
    rewrite (open_unlines _ (frame_bodies_text_line N frames Hok)).
    fold (lines_of frames).
    destruct frames as [|f fs]; [congruence|]. simpl hd in Htok.
    set (ls := lines_of (f :: fs)).
    assert (Hsplit : str_split (hd EmptyString ls) = tok :: rest).
    { unfold ls. rewrite lines_of_cons. simpl hd.
      now rewrite str_split_line. }
    rewrite readline_hd_tl. cbv beta iota zeta. rewrite Hsplit, HN.
    apply (load_frames_ok zeros N all_types (f :: fs) []
             (S (length ls)) 0 [] [] [] Hz eq_refl Hok).
    unfold ls. rewrite lines_of_cons. simpl length.
    rewrite length_app. simpl length.
    assert (length fs <= length (lines_of fs))%nat; [|lia].
    clear. unfold lines_of. rewrite length_map.
    induction fs as [|g gs IH]; simpl; [lia|]. rewrite length_app. lia.
  - apply length_map.
  - apply length_map.
  - apply length_map.
  - apply Forall_map. eapply Forall_impl; [|exact Hok].
    intros f (_ & Hlen & _). unfold frame_positions. now rewrite length_map.
  - apply Forall_map. eapply Forall_impl; [|exact Hok].
    intros f (_ & Hlen & _). unfold frame_types. now rewrite !length_map.
  - apply Forall_map. eapply Forall_impl; [|exact Hok].
    intros f (_ & _ & _ & _ & x & y & z & Hbox). unfold box_size.
    now rewrite Hbox.
  - apply type_number_injective.
  - apply type_number_order.
Qed.

Lemma example_frame_ok : trajectory_ok 3 [example_frame].
Proof.
  split; [|split].
  - exists "3"%string, ["header"%string]. split; reflexivity.
  - discriminate.
  - constructor; [|constructor].
    unfold frame_ok, particle_ok. simpl.
    repeat match goal with
           | |- _ /\ _ => split
           | |- Forall _ _ => constructor
           | |- exists _, _ => eexists
           | |- _ = _ => reflexivity
           | |- True => exact I
           | |- text_line _ => simpl
           end.
Qed.

Lemma C2_reader_frames_witness :
  load_xyzfile enough_memory
    ("3 header" ++ nl ++ "0 A 0 0 0" ++ nl ++ "1 B 1 0 0" ++ nl ++
     "2 A 0 1 0" ++ nl ++ "10 10 10" ++ nl)%string =
  Some (Ok ([[ (0%float, 0%float, 0%float);
               (1%float, 0%float, 0%float);
               (0%float, 1%float, 0%float) ]],
            [[0; 1; 0]],
            [[10%float; 10%float; 10%float]])).
Proof.
  exact (proj1 (C2_reader_frames enough_memory 3 [example_frame]
                  (fun _ => eq_refl) example_frame_ok)).
Defined.

(** C2 as the specification words it fails: a text in the format the
    specification gives (one header line, then the blocks one after the
    other) with two frames of one particle makes the reader raise
    [ValueError], with all the room it needs: it takes the particle
    line of the second block for a header, and the line of the box for
    a particle line. *)
Lemma C2_counterexample :
  spec_format_text "1 header"
    [ (["0 A 0 0 0"], "10 10 10"); (["0 B 1 1 1"], "10 10 10") ] =
    ("1 header" ++ nl ++ "0 A 0 0 0" ++ nl ++ "10 10 10" ++ nl ++
     "0 B 1 1 1" ++ nl ++ "10 10 10" ++ nl)%string /\
  load_xyzfile enough_memory
    (spec_format_text "1 header"
       [ (["0 A 0 0 0"], "10 10 10"); (["0 B 1 1 1"], "10 10 10") ]) =
    Some (Raise ValueError).
Proof. split; reflexivity. Qed.


(** ** [load_xyzfile]: the atom ids *)

Lemma same_but_id_parse (l l' : string) :
  same_but_id l l' -> parse_particle l = parse_particle l'.
Proof.
  intros (id & id' & rest & E & E'). unfold parse_particle.
  rewrite E, E'. reflexivity.
Qed.

Lemma readline_nth (fh : file) :
  readline fh = (nth 0 fh EmptyString, tl fh).
Proof. now destruct fh. Qed.

Lemma nth_skipn_add {A : Type} (d : A) (m j : nat) (l : list A) :
  nth j (skipn m l) d = nth (m + j) l d.
Proof.
  revert l. induction m as [|m IH]; intros l; [reflexivity|].
  destruct l as [|x l]; [now destruct j|]. simpl. apply IH.
Qed.

Lemma readline_skipn (m : nat) (fh : file) :
  readline (skipn m fh) = (nth m fh EmptyString, skipn (S m) fh).
Proof.
  rewrite readline_nth, nth_skipn_add, Nat.add_0_r. f_equal.
  revert fh. induction m as [|m IH]; intros fh; [now destruct fh|].
  destruct fh as [|x fh]; [reflexivity|]. simpl. apply IH.
Qed.

Lemma skipn_tl {A : Type} (n : nat) (l : list A) :
  skipn n (tl l) = skipn (S n) l.
Proof. destruct l; [simpl; apply skipn_nil | reflexivity]. Qed.

Lemma read_particles_same (n : nat) :
  forall (fh fh' : file) (labels : list string),
  (forall j, (j < n)%nat ->
     parse_particle (nth j fh EmptyString) =
     parse_particle (nth j fh' EmptyString)) ->
  match read_particles n fh labels with
  | Ok (conf, types, rest, labels') =>
      rest = skipn n fh /\
      read_particles n fh' labels = Ok (conf, types, skipn n fh', labels')
  | Raise e => read_particles n fh' labels = Raise e
  end.
Proof.
  induction n as [|n IH]; intros fh fh' labels H.
  - simpl. tauto.
  - simpl read_particles. rewrite !readline_nth.
    rewrite <- (H O) by lia.
    destruct (parse_particle (nth 0 fh EmptyString)) as [[t pos]|e];
      [|reflexivity].
    destruct (numeric_atomtype t labels) as [k labels1].
    specialize (IH (tl fh) (tl fh') labels1).
    destruct (read_particles n (tl fh) labels1)
      as [[[[conf types] rest] labels2]|e].
    + destruct IH as [Er E'].
      * intros j Hj. specialize (H (S j)).
        destruct fh, fh'; simpl in *; try destruct j; apply H; lia.
      * rewrite E', Er, !skipn_tl. split; reflexivity.
    + rewrite IH; [reflexivity|].
      intros j Hj. specialize (H (S j)).
      destruct fh, fh'; simpl in *; try destruct j; apply H; lia.
Qed.

Lemma same_from_line (N off : nat) (fh fh' : file) (j : nat) :
  same_from N off fh fh' ->
  particle_line_no N (off + j) = false ->
  nth j fh EmptyString = nth j fh' EmptyString.
Proof.
  intros [Hlen H] Hp.
  destruct (Nat.lt_ge_cases j (length fh)) as [Hj|Hj].
  - destruct (H j Hj) as [E|[Hq _]]; [exact E | congruence].
  - rewrite !nth_overflow by lia. reflexivity.
Qed.

Lemma same_from_parse (N off : nat) (fh fh' : file) (j : nat) :
  same_from N off fh fh' ->
  parse_particle (nth j fh EmptyString) =
  parse_particle (nth j fh' EmptyString).
Proof.
  intros [Hlen H].
  destruct (Nat.lt_ge_cases j (length fh)) as [Hj|Hj].
  - destruct (H j Hj) as [E|[_ Hs]]; [now rewrite E|].
    now apply same_but_id_parse.
  - rewrite !nth_overflow by lia. reflexivity.
Qed.

Lemma same_from_skipn (N off m : nat) (fh fh' : file) :
  same_from N off fh fh' ->
  same_from N (off + m) (skipn m fh) (skipn m fh').
Proof.
  intros [Hlen H]. split.
  - rewrite !length_skipn. lia.
  - intros j Hj. rewrite length_skipn in Hj.
    rewrite !nth_skipn_add, <- Nat.add_assoc. apply H. lia.
Qed.

Lemma particle_line_no_box (N off : nat) :
  (off mod (N + 2) = 1)%nat -> particle_line_no N (off + N) = false.
Proof.
  intros H. unfold particle_line_no.
  rewrite Nat.Div0.add_mod, H by lia.
  rewrite (Nat.mod_small N) by lia. rewrite (Nat.mod_small (1 + N)) by lia.
  apply andb_false_iff. right. apply Nat.leb_gt. lia.
Qed.

Lemma particle_line_no_header (N off : nat) :
  (off mod (N + 2) = 1)%nat -> particle_line_no N (off + S N) = false.
Proof.
  intros H. unfold particle_line_no.
  rewrite Nat.Div0.add_mod, H by lia.
  rewrite (Nat.mod_small (S N)) by lia.
  replace (1 + S N)%nat with (N + 2)%nat by lia.
  rewrite Nat.Div0.mod_same. reflexivity.
Qed.

Lemma next_frame_offset (N off : nat) :
  (off mod (N + 2) = 1)%nat -> ((off + (N + 2)) mod (N + 2) = 1)%nat.
Proof.
  intros H. rewrite Nat.Div0.add_mod, H, Nat.Div0.mod_same by lia.
  rewrite Nat.add_0_r. apply Nat.mod_small. 
  pose proof (Nat.mod_upper_bound off (N + 2)). lia.
Qed.

Lemma load_frames_same (zeros : allocator) (fuel : nat) :
  forall (k : nat) (N : Z) (line : string) (fh fh' : file)
         (labels : list string) (acc : loaded) (off : nat),
  (off mod (Z.to_nat N + 2) = 1)%nat ->
  same_from (Z.to_nat N) off fh fh' ->
  load_frames zeros fuel k N line fh labels acc =
  load_frames zeros fuel k N line fh' labels acc.
Proof.
  induction fuel as [|fuel IH];
    intros k N line fh fh' labels acc off Hoff Hs; [reflexivity|].
  simpl load_frames. destruct line as [|c line]; [reflexivity|].
  destruct (np_zeros zeros k N); [reflexivity|].
  set (n := Z.to_nat N) in *.
  pose proof (read_particles_same n fh fh' labels
                (fun j _ => same_from_parse n off fh fh' j Hs)) as Hr.
  destruct (read_particles n fh labels)
    as [[[[conf types] rest] labels1]|e]; [|now rewrite Hr].
  destruct Hr as [-> ->]. rewrite !readline_skipn.
  rewrite <- (same_from_line n off fh fh' n Hs
                (particle_line_no_box n off Hoff)).
  destruct (floats_of (str_split (nth n fh EmptyString))) as [boxsize|];
    [|reflexivity].
  destruct acc as [[trajectory atomtype_list] boxsize_list].
  rewrite <- (same_from_line n off fh fh' (S n) Hs
                (particle_line_no_header n off Hoff)).
  replace (skipn (S (S n)) fh) with (skipn (n + 2) fh)
    by (f_equal; lia).
  replace (skipn (S (S n)) fh') with (skipn (n + 2) fh')
    by (f_equal; lia).
  apply (IH (S k) N _ _ _ _ _ (off + (n + 2))%nat).
  - now apply next_frame_offset.
  - now apply same_from_skipn.
Qed.

(** C10. Two texts whose lines are the same, but for the first token of
    particle lines (the lines 1 to [N] of every run of [N + 2] lines,
    where [N] is the count the first line announces), make the reader
    return the same: the same arrays, or the same exception. *)
Theorem C10_atom_ids_unused (zeros : allocator) (text text' : string)
  (N : Z) :
  header_count text = Some N ->
  differ_in_atom_ids (Z.to_nat N) (open text) (open text') ->
  load_xyzfile zeros text = load_xyzfile zeros text'.
Proof.
  intros HN [Hlen H]. unfold load_xyzfile, header_count in *.
  rewrite readline_nth in HN. rewrite !readline_nth. simpl fst in HN.
  cbv beta iota zeta.
  assert (H0 : nth 0 (open text) EmptyString =
               nth 0 (open text') EmptyString).
  { destruct (open text) as [|l ls] eqn:E.
    - destruct (open text'); [reflexivity | discriminate].
    - destruct (H O) as [E0|[Hp _]]; [simpl; lia | exact E0 |].
      unfold particle_line_no in Hp. rewrite Nat.Div0.mod_0_l in Hp.
      discriminate. }
  rewrite <- H0, <- Hlen.
  destruct (str_split (nth 0 (open text) EmptyString)) as [|tok toks];
    [reflexivity|].
  rewrite HN.
  apply (load_frames_same zeros _ 0%nat N _ _ _ _ _ 1%nat).
  - apply Nat.mod_small. lia.
  - split.
    + destruct (open text), (open text'); simpl in *; lia.
    + intros j Hj.
      assert (Hj' : (S j < length (open text))%nat)
        by (destruct (open text); simpl in *; lia).
      specialize (H (S j) Hj').
      destruct (open text), (open text'); simpl in *; try lia; exact H.
Qed.

Lemma C10_atom_ids_unused_witness :
  load_xyzfile enough_memory
    ("3 header" ++ nl ++ "0 A 0 0 0" ++ nl ++ "1 B 1 0 0" ++ nl ++
     "2 A 0 1 0" ++ nl ++ "10 10 10" ++ nl)%string =
  load_xyzfile enough_memory
    ("3 header" ++ nl ++ "7 A 0 0 0" ++ nl ++ "x B 1 0 0" ++ nl ++
     "7 A 0 1 0" ++ nl ++ "10 10 10" ++ nl)%string.
Proof.
  apply (C10_atom_ids_unused enough_memory _ _ 3).
  - vm_compute. reflexivity.
  - split; [vm_compute; reflexivity|].
    intros k Hk. vm_compute in Hk.
    destruct k as [|[|[|[|[|k]]]]]; [| | | | |lia].
    + left. vm_compute. reflexivity.
    + right. split; [reflexivity|].
      exists "0"%string, "7"%string, ["A"; "0"; "0"; "0"]%string.
      split; vm_compute; reflexivity.
    + right. split; [reflexivity|].
      exists "1"%string, "x"%string, ["B"; "1"; "0"; "0"]%string.
      split; vm_compute; reflexivity.
    + right. split; [reflexivity|].
      exists "2"%string, "7"%string, ["A"; "0"; "1"; "0"]%string.
      split; vm_compute; reflexivity.
    + left. vm_compute. reflexivity.
Defined.

(* ================================================================== *)
(** * Part IV. Further properties of the code *)
(* ================================================================== *)

(** ** Chunks and lines *)

Lemma one_line_app (a b : string) :
  one_line a -> one_line b -> one_line (a ++ b)%string.
Proof.
  induction a as [|c a IH]; simpl; [tauto|]. intros [Hc Ha] Hb.
  split; [exact Hc | now apply IH].
Qed.

Lemma one_line_app_inv (a b : string) :
  one_line (a ++ b)%string -> one_line a /\ one_line b.
Proof.
  induction a as [|c a IH]; simpl; [tauto|]. intros [Hc H].
  destruct (IH H). tauto.
Qed.

Lemma one_line_uint (d : Decimal.uint) :
  one_line (NilEmpty.string_of_uint d).
Proof. induction d; simpl; auto. Qed.

Lemma one_line_pct_i (z : Z) : one_line (pct_i z).
Proof.
  unfold pct_i, NilZero.string_of_int, NilZero.string_of_uint.
  destruct (Z.to_int z) as [d|d]; destruct d; simpl; auto;
    try (split; [reflexivity|]); try (split; [reflexivity|]);
    apply one_line_uint.
Qed.

Lemma one_line_zeros (n : nat) : one_line (zeros n).
Proof. induction n; simpl; auto. Qed.

Lemma one_line_dec_fixed (p : nat) (neg : bool) (q : Z) :
  one_line (dec_fixed p neg q).
Proof.
  unfold dec_fixed, pad_digits.
  repeat apply one_line_app; try apply one_line_pct_i.
  - destruct neg; simpl; auto.
  - destruct p; [exact I|].
    apply (one_line_app "."); [simpl; auto|].
    apply one_line_app; [apply one_line_zeros | apply one_line_pct_i].
Qed.

Lemma one_line_pct_prec_f (p : nat) (x : float) : one_line (pct_prec_f p x).
Proof.
  unfold pct_prec_f.
  destruct (Prim2SF x) as [s|s| |s m e]; try apply one_line_dec_fixed.
  - destruct s; simpl; auto 10.
  - simpl. auto.
Qed.

Lemma one_line_fmt_point (p : point) : one_line (fmt_point p).
Proof.
  destruct p as [[x y] z]. unfold fmt_point, pct_f.
  repeat first [ apply one_line_pct_prec_f
               | apply one_line_app
               | (simpl; tauto) ].
Qed.

Lemma single_line_intro (b : string) : one_line b -> single_line (b ++ nl).
Proof. intros H. now exists b. Qed.

Ltac one_line_tac :=
  repeat first [ apply one_line_pct_prec_f
               | apply one_line_pct_i
               | apply one_line_fmt_point
               | apply one_line_app
               | (simpl; tauto) ].

Lemma single_line_color (c : Z) : single_line (fmt_draw_color c).
Proof.
  unfold fmt_draw_color. rewrite <- append_assoc'.
  apply single_line_intro. one_line_tac.
Qed.

Lemma single_line_sphere (p : point) (r : float) (res : Z) :
  single_line (fmt_draw_sphere p r res).
Proof.
  unfold fmt_draw_sphere, pct_f.
  rewrite <- !append_assoc'. apply single_line_intro. one_line_tac.
Qed.

Lemma single_line_cylinder (p q : point) (r : float) (res : Z) :
  single_line (fmt_draw_cylinder p q r res).
Proof.
  unfold fmt_draw_cylinder, pct_f.
  rewrite <- !append_assoc'. apply single_line_intro. one_line_tac.
Qed.

Lemma single_line_color_change (id : Z) (r g b : float) :
  single_line (fmt_color_change id r g b).
Proof.
  unfold fmt_color_change, pct_03f.
  rewrite <- !append_assoc'. apply single_line_intro. one_line_tac.
Qed.

Lemma single_line_setup : Forall single_line setup_lines.
Proof.
  unfold setup_lines.
  repeat constructor; rewrite <- ?append_assoc';
    apply single_line_intro; unfold dq; simpl; tauto.
Qed.

Lemma single_line_reset : Forall single_line reset_lines.
Proof.
  unfold reset_lines.
  repeat constructor; apply single_line_intro; simpl; tauto.
Qed.

(** ** Rules for [emits] *)

Section Emits.

Variable P : string -> Prop.

Lemma emits_ret {A : Type} (a : A) : emits P (ret a).
Proof. exists (Ok a), []. split; [apply sends_ret | constructor]. Qed.

Lemma emits_raise {A : Type} (e : pyexn) : emits P (@raise A e).
Proof. exists (Raise e), []. split; [apply sends_raise | constructor]. Qed.

Lemma emits_send (data : string) : P data -> emits P (send data).
Proof.
  intros H. exists (Ok tt), [data].
  split; [apply sends_send | now constructor].
Qed.

Lemma emits_bind {A B : Type} (m : IO A) (k : A -> IO B) :
  emits P m -> (forall a, emits P (k a)) -> emits P (bind m k).
Proof.
  intros (r & l1 & Hm & H1) Hk. destruct r as [a|e].
  - destruct (Hk a) as (r2 & l2 & Hk2 & H2).
    exists r2, (l1 ++ l2). split.
    + now apply sends_bind with (a := a).
    + now apply Forall_app.
  - exists (Raise e), l1. split; [now apply sends_bind_raise | exact H1].
Qed.

Lemma emits_for_each {A : Type} (l : list A) (body : A -> IO unit) :
  (forall x, emits P (body x)) -> emits P (for_each l body).
Proof.
  intros H. induction l as [|x l IH]; simpl.
  - apply emits_ret.
  - apply emits_bind; [apply H | intros _; exact IH].
Qed.

Lemma emits_subscript {A : Type} (l : list A) (i : Z) :
  emits P (subscript l i).
Proof.
  unfold subscript. destruct (np_get l i); [apply emits_ret|apply emits_raise].
Qed.

Lemma emits_subscript_opt {A : Type} (o : option (list A)) (i : Z) :
  emits P (subscript_opt o i).
Proof.
  destruct o; [apply emits_subscript | apply emits_raise].
Qed.

End Emits.

Lemma emits_lines (ls : list string) :
  Forall single_line ls -> emits single_line (for_each ls send).
Proof.
  intros H. exists (Ok tt), ls. split; [apply sends_lines | exact H].
Qed.

Ltac emits_tac :=
  repeat first
    [ apply emits_ret
    | apply emits_raise
    | apply emits_subscript
    | apply emits_subscript_opt
    | (apply emits_send;
       first [ apply single_line_color | apply single_line_sphere
             | apply single_line_cylinder | apply single_line_color_change ])
    | (apply emits_bind; [|intro])
    | (apply emits_for_each; intro) ].

Lemma emits_send_color (colors types : option (list Z)) (i : Z) :
  emits single_line (send_color colors types i).
Proof.
  unfold send_color. destruct colors; [|destruct types]; emits_tac.
Qed.

Lemma emits_choose_radius (a : draw_args) (i : Z) :
  emits single_line (choose_radius a i).
Proof.
  unfold choose_radius.
  destruct (radii a), (atomtypes a), (radius_list a); emits_tac.
Qed.

Lemma emits_draw_bond (a : draw_args) (colors : option (list Z))
  (b : Z * Z) :
  emits single_line (draw_bond a colors b).
Proof.
  destruct b as [i j]. unfold draw_bond.
  apply emits_bind; [apply emits_send_color | intros _].
  apply emits_bind; [apply emits_choose_radius | intro].
  emits_tac.
Qed.

Lemma emits_draw_segment (a : draw_args) (i : Z) (r : float) (t : Z) :
  emits single_line (draw_segment a i r t).
Proof.
  unfold draw_segment.
  apply emits_bind; [apply emits_subscript_opt | intros ti].
  destruct (ti =? t); [|apply emits_ret].
  apply emits_bind; [apply emits_subscript_opt | intros tj].
  destruct (tj =? t); emits_tac.
Qed.

Lemma emits_draw_particle (a : draw_args) (colors : option (list Z))
  (n : nat) :
  emits single_line (draw_particle a colors n).
Proof.
  unfold draw_particle.
  apply emits_bind; [apply emits_send_color | intros _].
  apply emits_bind; [apply emits_choose_radius | intros r].
  apply emits_bind; [apply emits_subscript | intros p].
  apply emits_bind;
    [apply emits_send, single_line_sphere | intros _].
  destruct (connecting_segments_types a) as [cst|]; [|apply emits_ret].
  destruct (Z.of_nat n + 1 <? Z.of_nat (length (configuration a)));
    [|apply emits_ret].
  apply emits_for_each. intros t. apply emits_draw_segment.
Qed.

(** What [draw_atomic] does after the setup lines. *)
Lemma emits_draw_body (a : draw_args) :
  emits single_line
    (bind (match bond_list a with
           | Some bl => for_each bl (draw_bond a (readjust_color_list a))
           | None => ret tt
           end)
       (fun _ =>
          bind (for_each (seq 0 (length (configuration a)))
                  (draw_particle a (readjust_color_list a)))
            (fun _ =>
               if reset_view a then for_each reset_lines send else ret tt))).
Proof.
  apply emits_bind; [|intros _; apply emits_bind; [|intros _]].
  - destruct (bond_list a); [|apply emits_ret].
    apply emits_for_each. intros b. apply emits_draw_bond.
  - apply emits_for_each. intros n. apply emits_draw_particle.
  - destruct (reset_view a); [|apply emits_ret].
    apply emits_lines, single_line_reset.
Qed.

(** ** [draw_atomic], [set_colorscale], [render_tachyon]: whatever the
    arguments *)

(** X1. Whatever its arguments, [draw_atomic] ends the same way and
    writes the same chunks on every usable socket, and these chunks
    begin with the six setup lines: a call that raises has deleted the
    previous drawing all the same. *)
Theorem draw_atomic_setup_first (a : draw_args) :
  exists (r : result unit) (rest : list string),
    sends (draw_atomic a) r (setup_lines ++ rest).
Proof.
  destruct (emits_draw_body a) as (r & rest & H & _).
  exists r, rest. unfold draw_atomic.
  eapply sends_bind; [apply sends_lines | exact H].
Qed.

(** X2. Every chunk [draw_atomic] and [set_colorscale] write, whatever
    their arguments and whether they return or raise, is one line: a
    text without newline followed by one newline. *)
Theorem chunks_are_lines :
  (forall a : draw_args, emits single_line (draw_atomic a)) /\
  (forall (cmap_discretize : Z -> string -> result colormap_obj)
          (colormap : string) (ncolors startcolorid : Z),
     emits single_line
       (set_colorscale cmap_discretize colormap ncolors startcolorid)).
Proof.
  split.
  - intros a. unfold draw_atomic.
    apply emits_bind; [apply emits_lines, single_line_setup | intros _].
    apply emits_draw_body.
  - intros cmap colormap ncolors startcolorid. unfold set_colorscale.
    destruct (String.eqb colormap "").
    + apply emits_send. apply single_line_intro. simpl. tauto.
    + destruct (cmap ncolors colormap) as [colors|e]; [|apply emits_raise].
      apply emits_for_each. intros i.
      destruct (colors (float_of_int i / float_of_int ncolors)%float)
        as [[[r g] b] al].
      apply emits_send, single_line_color_change.
Qed.

Lemma string_length_app (a b : string) :
  String.length (a ++ b) = (String.length a + String.length b)%nat.
Proof. induction a as [|c a IH]; simpl; congruence. Qed.

Lemma append_inj_r (a b c : string) :
  (a ++ c)%string = (b ++ c)%string -> a = b.
Proof.
  revert b. induction a as [|x a IH]; intros [|y b] H; simpl in H.
  - reflexivity.
  - apply (f_equal String.length) in H. simpl in H.
    rewrite string_length_app in H. lia.
  - apply (f_equal String.length) in H. simpl in H.
    rewrite string_length_app in H. lia.
  - injection H as -> H. f_equal. now apply IH.
Qed.

Lemma render_tachyon_sends (file_prefix : string) :
  sends (render_tachyon file_prefix) (Ok tt)
        [(render_body file_prefix ++ nl)%string].
Proof.
  unfold render_tachyon, render_body.
  rewrite !append_assoc'. apply sends_send.
Qed.

(** X3. [render_tachyon] writes one chunk, the render command for
    [file_prefix.dat]; the chunk is one line exactly when [file_prefix]
    holds no newline: a newline in it would split the command. *)
Theorem render_tachyon_one_line (file_prefix : string) :
  sends (render_tachyon file_prefix) (Ok tt)
        [(render_body file_prefix ++ nl)%string] /\
  (single_line (render_body file_prefix ++ nl) <-> one_line file_prefix).
Proof.
  split; [apply render_tachyon_sends|]. split.
  - intros (b & E & Hb). apply append_inj_r in E. subst b.
    unfold render_body in Hb.
    apply one_line_app_inv in Hb as [_ Hb].
    apply one_line_app_inv in Hb as [Hb _].
    apply one_line_app_inv in Hb as [Hb _]. exact Hb.
  - intros H. apply single_line_intro. unfold render_body, dq.
    repeat first [ exact H | apply one_line_app | (simpl; tauto) ].
Qed.

(** ** Sockets that are not usable *)

Lemma send_refused (data : string) (s : sock) :
  usable s = false ->
  send data s = (Raise (SocketError (refusal s)), s).
Proof.
  unfold usable, send, refusal. intros H.
  destruct (closed s); [reflexivity|]. simpl in H.
  rewrite andb_true_r in H. now rewrite H.
Qed.

Lemma draw_atomic_refused (a : draw_args) (s : sock) :
  usable s = false ->
  draw_atomic a s = (Raise (SocketError (refusal s)), s).
Proof.
  intros H. unfold draw_atomic, setup_lines. simpl for_each.
  unfold bind at 1. unfold bind at 1. now rewrite send_refused.
Qed.

(** X4. On a socket that is closed or never connected, [draw_atomic]
    (whatever its arguments), [vmdstop], [render_tachyon] and the reset
    of the colour scale raise the socket error of their first write and
    leave the socket as it was: nothing is written, and [vmdstop] does
    not get to close it. *)
Theorem unusable_socket_refuses (s : sock) :
  usable s = false ->
  (forall a, draw_atomic a s = (Raise (SocketError (refusal s)), s)) /\
  vmdstop s = (Raise (SocketError (refusal s)), s) /\
  (forall file_prefix,
     render_tachyon file_prefix s = (Raise (SocketError (refusal s)), s)) /\
  (forall cmap_discretize ncolors startcolorid,
     set_colorscale cmap_discretize "" ncolors startcolorid s =
     (Raise (SocketError (refusal s)), s)).
Proof.
  intros H. repeat split.
  - intros a. now apply draw_atomic_refused.
  - unfold vmdstop, bind. now rewrite send_refused.
  - intros p. unfold render_tachyon. now apply send_refused.
  - intros c k st. unfold set_colorscale. simpl. now apply send_refused.
Qed.

Lemma unusable_socket_refuses_witness :
  draw_atomic full_call (new_socket false) =
    (Raise (SocketError EPIPE), new_socket false) /\
  vmdstop (snd (vmdstop (new_socket true))) =
    (Raise (SocketError EBADF), snd (vmdstop (new_socket true))).
Proof.
  split.
  - apply (unusable_socket_refuses (new_socket false)). reflexivity.
  - apply (unusable_socket_refuses (snd (vmdstop (new_socket true)))).
    reflexivity.
Defined.

Lemma vmdstop_usable (s : sock) :
  usable s = true ->
  vmdstop s =
    (Ok tt,
     record_event EvClose
       (record_event (EvSend ("exit" ++ nl)%string) s)).
Proof.
  intros H. apply usable_inv in H as [Hc Ho].
  unfold vmdstop, bind, send, close. now rewrite Ho, Hc.
Qed.

(** X5. A session as the example runs it: two calls of [draw_atomic]
    whose arguments fit, then [vmdstop], on a usable socket.  The socket
    carries what it carried before, then the lines of the first call,
    then those of the second, then [exit] and the close; any call of
    [draw_atomic] after that raises the error of a closed socket and
    writes nothing. *)
Theorem session_composes (a1 a2 a3 : draw_args) (s : sock) :
  args_fit a1 -> segments_typed a1 ->
  args_fit a2 -> segments_typed a2 ->
  usable s = true ->
  let session := (draw_atomic a1 ;; draw_atomic a2 ;; vmdstop)%io in
  fst (session s) = Ok tt /\
  log (snd (session s)) =
    log s ++ map EvSend (call_lines a1 ++ call_lines a2) ++
    [EvSend ("exit" ++ nl)%string; EvClose] /\
  draw_atomic a3 (snd (session s)) =
    (Raise (SocketError EBADF), snd (session s)).
Proof.
  intros Hf1 Ht1 Hf2 Ht2 Hs session.
  assert (E : session s =
              (Ok tt,
               record_event EvClose
                 (record_event (EvSend ("exit" ++ nl)%string)
                    (after_sends s (call_lines a1 ++ call_lines a2))))).
  { unfold session, bind.
    rewrite (draw_atomic_sends a1 Hf1 Ht1 s Hs).
    fold (call_lines a1).
    rewrite (draw_atomic_sends a2 Hf2 Ht2)
      by now rewrite usable_after_sends.
    fold (call_lines a2). rewrite after_sends_app.
    apply vmdstop_usable. now rewrite usable_after_sends. }
  rewrite E. simpl fst. simpl snd. split; [reflexivity|]. split.
  - simpl. rewrite <- !app_assoc. reflexivity.
  - set (s' := record_event EvClose _).
    assert (Hc : closed s' = true).
    { unfold s', closed. simpl. rewrite !existsb_app. simpl.
      now rewrite orb_true_r. }
    assert (Hu : usable s' = false).
    { unfold usable. rewrite Hc. apply andb_false_r. }
    rewrite (draw_atomic_refused a3 s' Hu). unfold refusal. now rewrite Hc.
Qed.

Lemma session_composes_witness :
  log (snd ((draw_atomic full_call ;;
             draw_atomic (default_args two_particles) ;;
             vmdstop)%io (new_socket true))) =
    map EvSend (call_lines full_call ++
                call_lines (default_args two_particles)) ++
    [EvSend ("exit" ++ nl)%string; EvClose].
Proof.
  apply (session_composes full_call (default_args two_particles) full_call
           (new_socket true)).
  - exact args_fit_full_call.
  - exact segments_typed_full_call.
  - apply args_fit_default.
  - exact I.
  - reflexivity.
Defined.

(** ** A bond to a particle that is not there *)

Lemma np_get_invalid {A : Type} (l : list A) (i : Z) :
  ~ valid_index (length l) i -> np_get l i = None.
Proof.
  unfold valid_index, np_get. intros H.
  destruct (Z.leb_spec 0 i), (Z.ltb_spec i (Z.of_nat (length l)));
    simpl; try lia; try reflexivity;
    destruct (Z.leb_spec (- Z.of_nat (length l)) i), (Z.ltb_spec i 0);
    simpl; try lia; reflexivity.
Qed.

(** X6. When the first bond names a first particle that is there and a
    second one that is not (the per-particle arrays fitting), a call on
    a usable socket raises [IndexError] after the setup lines and the
    colour line of the bond, if there is one: no cylinder, no sphere and
    no reset of the view are written. *)
Theorem dangling_bond_raises (a : draw_args) (i j : Z)
  (rest : list (Z * Z)) (s : sock) :
  bond_list a = Some ((i, j) :: rest) ->
  args_fit (with_bonds a None) ->
  valid_index (length (configuration a)) i ->
  ~ valid_index (length (configuration a)) j ->
  usable s = true ->
  draw_atomic a s =
    (Raise IndexError,
     after_sends s (setup_lines ++ color_line_from a (chosen_color a) i)).
Proof.
  intros Hb Hfit Hi Hj Hs. revert s Hs.
  change (sends (draw_atomic a) (Raise IndexError)
            (setup_lines ++ color_line_from a (chosen_color a) i)).
  unfold draw_atomic. eapply sends_bind; [apply sends_lines|].
  apply sends_bind_raise. rewrite Hb. apply sends_for_each_raise.
  unfold draw_bond.
  replace (color_line_from a (chosen_color a) i)
    with (color_line_from a (chosen_color a) i ++ [] ++ [] ++ [])
    by now rewrite !app_nil_r.
  eapply sends_bind;
    [exact (send_color_sends (with_bonds a None) Hfit i Hi)|].
  eapply sends_bind;
    [exact (choose_radius_sends (with_bonds a None) Hfit i Hi)|].
  eapply sends_bind;
    [exact (position_sends (with_bonds a None) i Hi)|].
  apply sends_bind_raise. unfold subscript.
  rewrite (np_get_invalid _ _ Hj). apply sends_raise.
Qed.

Lemma dangling_bond_raises_witness :
  draw_atomic dangling_bond (new_socket true) =
    (Raise IndexError,
     after_sends (new_socket true) (setup_lines ++ [fmt_draw_color 545])).
Proof.
  apply (dangling_bond_raises dangling_bond 0 2 []).
  - reflexivity.
  - unfold args_fit, valid_index. simpl.
    repeat split; repeat constructor; simpl; lia.
  - unfold valid_index. simpl. lia.
  - unfold valid_index. simpl. lia.
  - reflexivity.
Defined.

(** ** [set_colorscale]: a call that fails writes nothing *)

(** X7. With a colormap name that is not empty, a call of
    [set_colorscale] that fails writes nothing.  The colormap is asked
    for before the socket is touched: when that raises, the call raises
    the same exception, whatever the socket; and when the colormap is
    there, with one colour or more to set, a socket that is not usable
    refuses the first write. *)
Theorem set_colorscale_nothing_written
  (cmap_discretize : Z -> string -> result colormap_obj)
  (colormap : string) (ncolors startcolorid : Z) (s : sock) :
  colormap <> ""%string ->
  (forall e, cmap_discretize ncolors colormap = Raise e ->
     set_colorscale cmap_discretize colormap ncolors startcolorid s =
     (Raise e, s)) /\
  (forall colors, cmap_discretize ncolors colormap = Ok colors ->
     1 <= ncolors -> usable s = false ->
     set_colorscale cmap_discretize colormap ncolors startcolorid s =
     (Raise (SocketError (refusal s)), s)).
Proof.
  intros Hne. unfold set_colorscale.
  destruct (String.eqb_spec colormap "") as [E|_]; [contradiction|].
  split.
  - intros e ->. reflexivity.
  - intros colors -> Hk Hs. unfold range.
    destruct (Z.to_nat ncolors) as [|m] eqn:Em; [lia|].
    cbn [seq map for_each]. unfold bind.
    destruct (colors (float_of_int (Z.of_nat 0) / float_of_int ncolors)%float)
      as [[[r g] b] al].
    now rewrite send_refused.
Qed.

Lemma set_colorscale_nothing_written_witness :
  set_colorscale (fun _ _ => Raise ValueError) "nojet" 1024 33
    (new_socket true) = (Raise ValueError, new_socket true) /\
  set_colorscale grey_map "jet" 1024 33 (new_socket false) =
    (Raise (SocketError (refusal (new_socket false))), new_socket false).
Proof.
  split.
  - apply (set_colorscale_nothing_written (fun _ _ => Raise ValueError)
             "nojet" 1024 33 (new_socket true)); [discriminate|reflexivity].
  - apply (set_colorscale_nothing_written grey_map "jet" 1024 33
             (new_socket false)) with (colors := fun x => (x, x, x, 1%float));
      [discriminate | reflexivity | lia | reflexivity].
Defined.

(** ** Colour values and the palette *)

Lemma exact_floor_below_one (v : float) :
  (0 <=? v)%float = true -> (v <? 1)%float = true ->
  (v <=? 1)%float = true /\ exact_floor_scaled v <= 1023.
Proof.
  rewrite !leb_spec, ltb_spec. unfold exact_floor_scaled.
  change (Prim2SF 0) with (S754_zero false).
  change (Prim2SF 1) with (S754_finite false 4503599627370496 (-52)).
  pose proof (Prim2SF_valid v) as Hv.
  destruct (Prim2SF v) as [s|s| |s m e]; intros H0 H1.
  - split; [reflexivity | discriminate].
  - destruct s; discriminate.
  - discriminate.
  - destruct s; [discriminate|].
    simpl in Hv. unfold bounded, canonical_mantissa in Hv.
    apply andb_true_iff in Hv as [Hc _]. apply Z.eqb_eq in Hc.
    pose proof (digits2_bound m) as Hm.
    set (d := Zpos (digits2_pos m)) in *.
    assert (Hd : 1 <= d <= 53).
    { unfold d, fexp, emin, prec, emax in *. lia. }
    assert (Hle : SFleb (S754_finite false m e)
                    (S754_finite false 4503599627370496 (-52)) = true /\
                  e <= -52 /\ Zpos m < 2 ^ (- e)).
    { unfold SFltb, SFleb, SFcompare in H1 |- *.
      destruct (Z.compare_spec e (-52)) as [->|Hlt|Hgt]; try discriminate.
      - rewrite Pos.compare_cont_spec in H1 |- *.
        simpl Pos.switch_Eq in H1 |- *.
        destruct (Pos.compare_spec m 4503599627370496) as [->|Hl|Hg];
          try discriminate.
        split; [reflexivity|]. split; [apply Z.le_refl|].
        replace (2 ^ (- -52)) with 4503599627370496 by reflexivity.
        apply Pos2Z.pos_lt_pos. exact Hl.
      - split; [reflexivity|]. split; [apply Z.lt_le_incl; exact Hlt|].
        apply (Z.lt_le_trans _ (2 ^ d)); [exact Hm|].
        apply (Z.le_trans _ (2 ^ 53)); apply Z.pow_le_mono_r; lia. }
    destruct Hle as (Hleb & He & Hme). split; [exact Hleb|].
    clear - He Hme.
    assert (Hn : e + 10 <= 0) by lia.
    rewrite (Z.shiftl_div_pow2 _ _ Hn).
    assert (Hpos : 0 < 2 ^ (- (e + 10))) by (apply Z.pow_pos_nonneg; lia).
    apply Z.lt_succ_r, (Z.div_lt_upper_bound _ _ _ Hpos).
    replace (2 ^ (- (e + 10)) * Z.succ 1023) with (2 ^ (- e)); [exact Hme|].
    replace (- e) with ((- (e + 10)) + 10) by lia.
    rewrite Z.pow_add_r by lia. reflexivity.
Qed.

(** X8. The colour id [draw_atomic] derives from a colour value [v] with
    [0 <= v < 1] is one of the ids [33 .. 1056] that [set_colorscale]
    with its default arguments assigns ([VMDSTARTCOLOR + i] for [i] in
    [range(VMDNCOLORS)]); the value [1.0] gives the id 1057, which is
    none of them. *)
Theorem color_ids_in_palette :
  (forall v : float,
     (0 <=? v)%float = true -> (v <? 1)%float = true ->
     exists i, In i (range VMDNCOLORS) /\
       floor_to_int (v * float_of_int VMDNCOLORS)%float + VMDSTARTCOLOR =
       VMDSTARTCOLOR + i) /\
  forall i, In i (range VMDNCOLORS) ->
    floor_to_int (1 * float_of_int VMDNCOLORS)%float + VMDSTARTCOLOR <>
    VMDSTARTCOLOR + i.
Proof.
  split.
  - intros v H0 H1. destruct (exact_floor_below_one v H0 H1) as [Hle Hb].
    destruct (floor_scaled_unit v H0 Hle) as [E [Hlo _]].
    exists (exact_floor_scaled v). split; [|rewrite E; lia].
    unfold range. apply in_map_iff.
    exists (Z.to_nat (exact_floor_scaled v)). split; [lia|].
    apply in_seq. unfold VMDNCOLORS. lia.
  - intros i Hi. unfold range in Hi. apply in_map_iff in Hi as (k & <- & Hk).
    apply in_seq in Hk. unfold VMDNCOLORS in Hk.
    replace (floor_to_int (1 * float_of_int VMDNCOLORS)%float) with 1024
      by (vm_compute; reflexivity).
    lia.
Qed.

Lemma color_ids_in_palette_witness :
  exists i, In i (range VMDNCOLORS) /\
    floor_to_int (0.5 * float_of_int VMDNCOLORS)%float + VMDSTARTCOLOR =
    VMDSTARTCOLOR + i.
Proof.
  apply (proj1 color_ids_in_palette 0.5%float); reflexivity.
Defined.

(** ** [vmdstart]: how long, and what comes back *)

Section Launch.

Variable ctl_script : Z -> string.
Variable eisconn : Z.
Variable net : nat -> connect_outcome.
Variable port : Z.


Lemma connect_loop_connected (attempts : list nat) :
  fst (connect_loop eisconn net port attempts true) = Ok (new_socket true).
Proof.
  induction attempts as [|i rest IH]; [reflexivity|].
  cbn [connect_loop try_connect].
  destruct (already_connected (Some eisconn)); [reflexivity|].
  destruct (connect_loop eisconn net port rest true) as [r evs].
  exact IH.
Qed.

Lemma connect_loop_result (attempts : list nat) :
  fst (connect_loop eisconn net port attempts false) =
  match first_decisive net attempts with
  | None => Ok (new_socket false)
  | Some i =>
      match net i with
      | Connects => Ok (new_socket true)
      | Fails (SocketErr _) => Ok (new_socket false)
      | Fails (PlainErr _) => Raise AttributeError
      end
  end.
Proof.
  induction attempts as [|i rest IH]; [reflexivity|].
  simpl. destruct (net i) as [|[errno|name]] eqn:E.
  - rewrite E. pose proof (connect_loop_connected rest) as H.
    destruct (connect_loop eisconn net port rest true) as [r evs].
    exact H.
  - destruct (already_connected errno) eqn:Ea.
    + rewrite E. reflexivity.
    + destruct (connect_loop eisconn net port rest false) as [r evs].
      exact IH.
  - rewrite E. reflexivity.
Qed.

End Launch.



(** X11. The socket [vmdstart] returns is either connected, and then a
    [connect] succeeded and the socket is usable, or it refuses every
    call of [draw_atomic] at its first write with a broken pipe: the
    failure to connect shows only then. *)
Theorem launch_then_draw (ctl_script : Z -> string) (eisconn : Z)
  (net : nat -> connect_outcome) (command_script : string) (port : Z)
  (s : sock) :
  fst (vmdstart ctl_script eisconn net command_script port) = Ok s ->
  (usable s = true /\
   exists i, first_decisive net (seq 0 5) = Some i /\ net i = Connects) \/
  (forall a, draw_atomic a s = (Raise (SocketError EPIPE), s)).
Proof.
  unfold vmdstart.
  pose proof (connect_loop_result eisconn net port (seq 0 5)) as H.
  destruct (connect_loop eisconn net port (seq 0 5) false) as [r evs].
  cbn [fst] in H |- *. intros ->.
  assert (Hno : forall a,
            draw_atomic a (new_socket false) =
            (Raise (SocketError EPIPE), new_socket false)).
  { intros a. now rewrite draw_atomic_refused. }
  destruct (first_decisive net (seq 0 5)) as [i|] eqn:Ed.
  - destruct (net i) as [|[errno|name]] eqn:En.
    + injection H as ->. left. split; [reflexivity|]. now exists i.
    + injection H as ->. right. exact Hno.
    + discriminate.
  - injection H as ->. right. exact Hno.
Qed.

Lemma launch_then_draw_witness :
  (usable (new_socket true) = true /\
   exists i, first_decisive net_slow (seq 0 5) = Some i /\
             net_slow i = Connects) \/
  (forall a, draw_atomic a (new_socket true) =
             (Raise (SocketError EPIPE), new_socket true)).
Proof.
  apply (launch_then_draw sample_script 106 net_slow
           "remote_ctl.tcl"%string 5555 (new_socket true)).
  reflexivity.
Defined.

(** ** [load_xyzfile]: every text *)

Lemma parse_particle_raises (line : string) (e : pyexn) :
  parse_particle line = Raise e -> e = ValueError.
Proof.
  unfold parse_particle.
  destruct (firstn 5 (str_split line)) as [|t1 [|t2 [|t3 [|t4 [|t5 [|t6 l]]]]]];
    try (intros [= <-]; reflexivity).
  destruct (py_float t3), (py_float t4), (py_float t5);
    intros [= <-]; reflexivity.
Qed.

Lemma read_particles_raises (n : nat) (fh : file) (labels : list string)
  (e : pyexn) :
  read_particles n fh labels = Raise e -> e = ValueError.
Proof.
  revert fh labels. induction n as [|n IH]; intros fh labels; [discriminate|].
  simpl. destruct (readline fh) as [line fh1].
  destruct (parse_particle line) as [[t pos]|e'] eqn:Ep.
  - destruct (numeric_atomtype t labels) as [k labels1].
    destruct (read_particles n fh1 labels1)
      as [[[[conf types] rest] labels2]|e'] eqn:Er; [discriminate|].
    intros [= <-]. exact (IH _ _ Er).
  - intros [= <-]. exact (parse_particle_raises _ _ Ep).
Qed.

Lemma read_particles_rest (n : nat) (fh : file) (labels : list string)
  (conf : list point) (types : list Z) (rest : file)
  (labels' : list string) :
  read_particles n fh labels = Ok (conf, types, rest, labels') ->
  rest = skipn n fh /\ length conf = n /\ length types = n.
Proof.
  revert fh labels conf types rest labels'.
  induction n as [|n IH]; intros fh labels conf types rest labels'.
  - simpl. intros [= <- <- <- <-]. auto.
  - simpl. rewrite readline_nth.
    destruct (parse_particle (nth 0 fh EmptyString)) as [[t pos]|e];
      [|discriminate].
    destruct (numeric_atomtype t labels) as [k labels1].
    destruct (read_particles n (tl fh) labels1)
      as [[[[conf' types'] rest'] labels2]|e] eqn:Er; [|discriminate].
    intros [= <- <- <- <-]. destruct (IH _ _ _ _ _ _ Er) as (-> & Hc & Ht).
    rewrite skipn_tl. simpl. auto.
Qed.

Lemma read_particles_short (n : nat) (fh : file) (labels : list string) :
  (length fh < n)%nat -> read_particles n fh labels = Raise ValueError.
Proof.
  revert fh labels. induction n as [|n IH]; intros fh labels H; [lia|].
  destruct fh as [|l fh]; [reflexivity|].
  cbn [read_particles readline].
  destruct (parse_particle l) as [[t pos]|e] eqn:Ep.
  - destruct (numeric_atomtype t labels) as [k labels1].
    rewrite IH; [reflexivity | simpl in H; lia].
  - now rewrite (parse_particle_raises _ _ Ep).
Qed.

Lemma load_frames_total (zeros : allocator) (fuel : nat) :
  forall (k : nat) (N : Z) (line : string) (fh : file)
         (labels : list string) (acc : loaded),
  (1 <= fuel)%nat ->
  (line <> EmptyString -> (length fh + 2 <= fuel)%nat) ->
  (exists out,
     load_frames zeros fuel k N line fh labels acc = Some (Ok out)) \/
  load_frames zeros fuel k N line fh labels acc = Some (Raise ValueError) \/
  (exists k' a,
     0 <= N /\ zeros k' N = Some a /\
     load_frames zeros fuel k N line fh labels acc =
     Some (Raise (alloc_exn a))).
Proof.
  induction fuel as [|fuel IH]; intros k N line fh labels acc H1 H2; [lia|].
  simpl. destruct line as [|c line]; [left; now exists acc|].
  assert (Hf : (length fh + 2 <= S fuel)%nat) by (apply H2; discriminate).
  unfold np_zeros.
  destruct (Z.ltb_spec N 0) as [Hneg|Hpos]; [right; now left|].
  destruct (zeros k N) as [a|] eqn:Ez; simpl.
  { right. right. exists k, a. auto. }
  destruct (read_particles (Z.to_nat N) fh labels)
    as [[[[conf types] fh1] labels1]|e] eqn:Er.
  - apply read_particles_rest in Er as (-> & _).
    rewrite readline_skipn.
    destruct (floats_of (str_split (nth (Z.to_nat N) fh EmptyString)));
      [|right; now left].
    destruct acc as [[trajectory atomtype_list] boxsize_list].
    rewrite readline_nth. apply IH; [lia|].
    intros Hne.
    pose proof (length_skipn (S (Z.to_nat N)) fh) as Hl.
    destruct (skipn (S (Z.to_nat N)) fh) as [|x rest]; [now elim Hne|].
    simpl in Hl |- *. lia.
  - right. left. now rewrite (read_particles_raises _ _ _ _ Er).
Qed.

(** X12. [load_xyzfile] ends on every text and every machine: it
    returns the three arrays, or raises [ValueError], [IndexError],
    [MemoryError] or [OverflowError]; [IndexError] exactly when the
    first line holds no token (an empty text, a blank first line), and
    the last two only when the arrays for the count the first line
    announces could not be made. *)
Theorem reader_always_ends (zeros : allocator) (text : string) :
  let r := load_xyzfile zeros text in
  ((exists out, r = Some (Ok out)) \/
   r = Some (Raise ValueError) \/ r = Some (Raise IndexError) \/
   r = Some (Raise MemoryError) \/ r = Some (Raise OverflowError)) /\
  (r = Some (Raise IndexError) <->
   str_split (fst (readline (open text))) = []) /\
  (r = Some (Raise MemoryError) \/ r = Some (Raise OverflowError) ->
   exists k N,
     header_count text = Some N /\ 0 <= N /\ zeros k N <> None).
Proof.
  unfold load_xyzfile, header_count. rewrite readline_nth. simpl fst.
  cbv zeta.
  destruct (str_split (nth 0 (open text) EmptyString)) as [|tok toks] eqn:Es.
  - split; [tauto|]. split; [tauto|]. intros [E|E]; discriminate.
  - destruct (py_int tok) as [N|].
    + assert (H : (1 <= S (length (open text)))%nat) by lia.
      assert (H' : nth 0 (open text) EmptyString <> EmptyString ->
                   (length (tl (open text)) + 2 <=
                    S (length (open text)))%nat).
      { intros _. destruct (open text); [discriminate Es | simpl; lia]. }
      destruct (load_frames_total zeros _ 0%nat N _ _ [] ([], [], []) H H')
        as [[out E]|[E|(k & a & HN & Ez & E)]]; rewrite E.
      * split; [left; now exists out|].
        split; [split; discriminate|]. intros [X|X]; discriminate.
      * split; [tauto|].
        split; [split; discriminate|]. intros [X|X]; discriminate.
      * split; [destruct a; simpl; tauto|].
        split; [split; [destruct a|]; discriminate|].
        intros _. exists k, N. rewrite Ez. repeat split; auto.
        discriminate.
    + split; [tauto|]. split; [split; discriminate|].
      intros [X|X]; discriminate.
Qed.

Lemma reader_always_ends_witness :
  exists k N,
    header_count "999999999999 atoms" = Some N /\ 0 <= N /\
    small_machine k N <> None.
Proof.
  apply (reader_always_ends small_machine "999999999999 atoms").
  left. reflexivity.
Defined.

(** ** [load_xyzfile]: what follows the last whole frame *)

Lemma load_frames_through (zeros : allocator) (N : nat)
  (all : list string) (fs : list frame_text) (tail : file) :
  forall (p q : list string) (fuel k : nat)
         (trajectory : list (list point))
         (atomtype_list : list (list Z)) (boxsize_list : list (list float)),
  allocates zeros (Z.of_nat N) ->
  all = p ++ concat (map frame_types fs) ++ q ->
  Forall (frame_ok N) fs ->
  load_frames zeros (length fs + fuel) k (Z.of_nat N)
    (hd EmptyString (lines_of fs ++ tail))
    (tl (lines_of fs ++ tail)) (distinct p)
    (trajectory, atomtype_list, boxsize_list) =
  load_frames zeros fuel (length fs + k) (Z.of_nat N)
    (hd EmptyString tail) (tl tail)
    (distinct (p ++ concat (map frame_types fs)))
    (trajectory ++ map frame_positions fs,
     atomtype_list ++
       map (fun f => map (type_number all) (frame_types f)) fs,
     boxsize_list ++ map (fun f => box_size (box f)) fs).
Proof.
  induction fs as [|f fs IH];
    intros p q fuel k trajectory atomtype_list boxsize_list Hz Hall Hok.
  - simpl. now rewrite !app_nil_r.
  - rewrite lines_of_cons. simpl length. rewrite !Nat.add_succ_l.
    rewrite <- !app_comm_cons. simpl hd. simpl tl.
    inversion Hok as [|f' fs' (Hh & Hlen & Hps & Hb & x & y & z & Hbox) Hoks];
      subst f' fs'.
    simpl load_frames.
    destruct (line_of (header f)) as [|c hs] eqn:Eh;
      [now apply line_of_not_empty in Eh|].
    rewrite (np_zeros_allocates zeros k N Hz).
    rewrite Nat2Z.id, <- app_assoc, <- app_comm_cons.
    pose proof (read_particles_ok (particles f)
                  (line_of (box f) :: lines_of fs ++ tail) (distinct p) Hps)
      as Hr.
    rewrite Hlen in Hr. rewrite Hr. simpl readline. cbv beta iota zeta.
    rewrite str_split_line, Hbox, readline_hd_tl.
    simpl map in Hall. simpl concat in Hall. fold (frame_types f).
    rewrite (number_types_spec (frame_types f) p
               (concat (map frame_types fs) ++ q)).
    simpl fst. simpl snd.
    rewrite <- app_assoc in Hall. rewrite <- Hall.
    rewrite (IH (p ++ frame_types f) q).
    + simpl map. simpl concat. unfold box_size at 2. rewrite Hbox.
      now rewrite <- !app_assoc, Nat.add_succ_r.
    + assumption.
    + now rewrite <- !app_assoc.
    + assumption.
Qed.

Lemma lines_of_length (N : nat) (fs : list frame_text) :
  Forall (frame_ok N) fs ->
  length (lines_of fs) = (length fs * (N + 2))%nat.
Proof.
  induction 1 as [|f fs (_ & Hlen & _) _ IH]; [reflexivity|].
  rewrite lines_of_cons. simpl length. rewrite length_app, length_map.
  simpl length. rewrite IH, Hlen. lia.
Qed.

(** The reader on frames of [N] particles followed by further lines:
    the frames are read, and the loop goes on with what has been read. *)
Lemma load_xyzfile_through (zeros : allocator) (N : nat)
  (frames : list frame_text) (bodies : list string) (q : list string) :
  allocates zeros (Z.of_nat N) ->
  trajectory_ok N frames ->
  Forall text_line bodies ->
  load_xyzfile zeros (unlines (flat_map frame_bodies frames ++ bodies)) =
  load_frames zeros (length frames * (N + 1) + S (length bodies))
    (length frames) (Z.of_nat N)
    (hd EmptyString (map line_of bodies)) (tl (map line_of bodies))
    (distinct (concat (map frame_types frames)))
    (map frame_positions frames,
     map (fun f => map (type_number
                          (concat (map frame_types frames) ++ q))
                     (frame_types f)) frames,
     map (fun f => box_size (box f)) frames).
Proof.
  intros Hz ((tok & rest & Hsplit & HN) & Hne & Hok) Hbodies.
  unfold load_xyzfile.
  rewrite open_unlines.
  2:{ apply Forall_app. split; [|assumption].
      apply Forall_flat_map. eapply Forall_impl; [|exact Hok].
      intros f (Hh & _ & Hps & Hb & _). unfold frame_bodies.
      constructor; [assumption|]. apply Forall_app. split; [|now constructor].
      eapply Forall_impl; [|exact Hps]. now intros b [Hb' _]. }
  rewrite map_app. fold (lines_of frames).
  destruct frames as [|f fs]; [congruence|]. simpl hd in Hsplit.
  rewrite readline_hd_tl.
  assert (Hhd : hd EmptyString (lines_of (f :: fs) ++ map line_of bodies) =
                line_of (header f)).
  { now rewrite lines_of_cons. }
  cbv beta iota zeta. rewrite Hhd, str_split_line, Hsplit, HN.
  rewrite <- Hhd.
  rewrite length_app, (lines_of_length N _ Hok), length_map.
  replace (S (length (f :: fs) * (N + 2) + length bodies))
    with (length (f :: fs) +
          (length (f :: fs) * (N + 1) + S (length bodies)))%nat by lia.
  rewrite (load_frames_through zeros N
             (concat (map frame_types (f :: fs)) ++ q) (f :: fs)
             (map line_of bodies) [] q _ 0 [] [] [] Hz eq_refl Hok).
  now rewrite Nat.add_0_r.
Qed.

(** X13. A trajectory of whole frames of [N] particles followed by a
    header line and fewer than [N] further lines (a last frame cut
    short, or one more line at the end of the file, a blank one
    included) makes the reader raise [ValueError], on a machine with
    room for the arrays of a frame: the frames it has read are lost. *)
Theorem cut_short_frame_raises (zeros : allocator) (N : nat)
  (frames : list frame_text) (hdr : string) (ps : list string) :
  allocates zeros (Z.of_nat N) ->
  trajectory_ok N frames ->
  text_line hdr -> Forall text_line ps ->
  (length ps < N)%nat ->
  load_xyzfile zeros (unlines (flat_map frame_bodies frames ++ hdr :: ps)) =
  Some (Raise ValueError).
Proof.
  intros Hz Hok Hh Hps Hlen.
  rewrite (load_xyzfile_through zeros N frames (hdr :: ps) [] Hz Hok)
    by now constructor.
  rewrite Nat.add_succ_r. simpl map. simpl hd. simpl tl.
  simpl load_frames.
  destruct (line_of hdr) as [|c hs] eqn:Eh;
    [now apply line_of_not_empty in Eh|].
  rewrite (np_zeros_allocates zeros _ N Hz).
  rewrite Nat2Z.id, read_particles_short; [reflexivity|].
  now rewrite length_map.
Qed.

Lemma cut_short_frame_raises_witness :
  load_xyzfile enough_memory
    ("3 header" ++ nl ++ "0 A 0 0 0" ++ nl ++ "1 B 1 0 0" ++ nl ++
     "2 A 0 1 0" ++ nl ++ "10 10 10" ++ nl ++ nl)%string =
  Some (Raise ValueError).
Proof.
  apply (cut_short_frame_raises enough_memory 3 [example_frame]
           EmptyString [] (fun _ => eq_refl) example_frame_ok).
  - exact I.
  - constructor.
  - simpl. lia.
Defined.

(** X14. The line of the box of the last frame may be missing: after
    whole frames, a header line and [N] particle lines at the end of
    the file are read as one more frame, with an empty box (on a
    machine with room for the arrays of a frame). *)
Theorem last_box_optional (zeros : allocator) (N : nat)
  (frames : list frame_text) (hdr : string) (ps : list string) :
  allocates zeros (Z.of_nat N) ->
  trajectory_ok N frames ->
  text_line hdr -> Forall particle_ok ps ->
  length ps = N ->
  let all_types := concat (map frame_types frames) ++ map particle_type ps in
  load_xyzfile zeros
    (unlines (flat_map frame_bodies frames ++ hdr :: ps)) =
  Some (Ok (map frame_positions frames ++ [map particle_position ps],
            map (fun f => map (type_number all_types) (frame_types f))
                frames ++
              [map (type_number all_types) (map particle_type ps)],
            map (fun f => box_size (box f)) frames ++ [[]])).
Proof.
  intros Hz Hok Hh Hps Hlen all_types.
  assert (Hne : frames <> []) by apply Hok.
  rewrite (load_xyzfile_through zeros N frames (hdr :: ps)
             (map particle_type ps) Hz Hok).
  2:{ constructor; [assumption|]. eapply Forall_impl; [|exact Hps].
      now intros b [Hb _]. }
  fold all_types.
  destruct frames as [|f fs]; [congruence|].
  remember (f :: fs) as frames eqn:Efr.
  replace (length frames * (N + 1) + S (length (hdr :: ps)))%nat
    with (S (S (length fs * (N + 1) + N + S (length ps))))
    by (subst frames; simpl length; lia).
  simpl map. simpl hd. simpl tl.
  cbv beta iota zeta delta [load_frames]. fold load_frames.
  destruct (line_of hdr) as [|c hs] eqn:Eh;
    [now apply line_of_not_empty in Eh|].
  rewrite (np_zeros_allocates zeros _ N Hz).
  rewrite Nat2Z.id.
  pose proof (read_particles_ok ps []
                (distinct (concat (map frame_types frames))) Hps) as Hr.
  rewrite app_nil_r, Hlen in Hr. rewrite Hr.
  rewrite (number_types_spec (map particle_type ps)
             (concat (map frame_types frames)) []).
  rewrite app_nil_r. fold all_types. reflexivity.
Qed.

Lemma last_box_optional_witness :
  load_xyzfile enough_memory
    ("1 header" ++ nl ++ "0 A 0 0 0" ++ nl ++ "10 10 10" ++ nl ++
     "1 header" ++ nl ++ "0 B 1 0 0" ++ nl)%string =
  Some (Ok ([[ (0%float, 0%float, 0%float) ]; [ (1%float, 0%float, 0%float) ]],
            [[0]; [1]],
            [[10%float; 10%float; 10%float]; []])).
Proof.
  refine (last_box_optional enough_memory 1
            [{| header := "1 header"; particles := ["0 A 0 0 0"];
                box := "10 10 10" |}]
            "1 header" ["0 B 1 0 0"] (fun _ => eq_refl) _ _ _ _).
  - split; [|split].
    + exists "1"%string, ["header"%string]. split; reflexivity.
    + discriminate.
    + constructor; [|constructor].
      unfold frame_ok, particle_ok. simpl.
      repeat match goal with
             | |- _ /\ _ => split
             | |- Forall _ _ => constructor
             | |- exists _, _ => eexists
             | |- _ = _ => reflexivity
             | |- True => exact I
             | |- text_line _ => simpl
             end.
  - simpl. repeat split.
  - constructor; [|constructor]. unfold particle_ok. simpl.
    split; [repeat split|]. eexists. eexists. reflexivity.
  - reflexivity.
Defined.

(** ** [load_xyzfile]: the range of the type numbers *)

Lemma NoDup_distinct_from (seen l : list string) :
  NoDup (distinct_from seen l).
Proof.
  revert seen. induction l as [|y l IH]; intros seen; [constructor|].
  rewrite distinct_from_mem. destruct (mem y seen); [apply IH|].
  constructor; [|apply IH].
  rewrite in_distinct_from, in_app_iff. simpl. tauto.
Qed.

Lemma index_of_nth (l : list string) (k : nat) :
  NoDup l -> (k < length l)%nat ->
  index_of (nth k l EmptyString) l = Some k.
Proof.
  intros Hnd. revert k. induction Hnd as [|y l Hy _ IH]; intros k Hk.
  - simpl in Hk. lia.
  - destruct k as [|k]; simpl.
    + now rewrite String.eqb_refl.
    + simpl in Hk.
      destruct (String.eqb_spec (nth k l EmptyString) y) as [E|_].
      * exfalso. apply Hy. rewrite <- E. apply nth_In. lia.
      * rewrite IH by lia. reflexivity.
Qed.

Lemma type_number_range (all : list string) (t : string) :
  In t all ->
  0 <= type_number all t < Z.of_nat (length (distinct all)).
Proof.
  intros H. split; [unfold type_number; lia|].
  apply type_number_index, index_of_Some in H.
  assert (Hlt : (Z.to_nat (type_number all t) < length (distinct all))%nat).
  { apply nth_error_Some. congruence. }
  unfold type_number in *. lia.
Qed.

Lemma type_number_onto (all : list string) (k : nat) :
  (k < length (distinct all))%nat ->
  exists t, In t all /\ type_number all t = Z.of_nat k.
Proof.
  intros Hk. exists (nth k (distinct all) EmptyString).
  assert (Hin : In (nth k (distinct all) EmptyString) all).
  { apply (in_distinct_from _ [] all). now apply nth_In. }
  split; [exact Hin|].
  apply type_number_index in Hin.
  pose proof (NoDup_distinct_from [] all) as Hnd. fold (distinct all) in Hnd.
  rewrite (index_of_nth (distinct all) k Hnd Hk) in Hin.
  injection Hin as Hin. apply (f_equal Z.of_nat) in Hin.
  rewrite Z2Nat.id in Hin by (unfold type_number; lia). now symmetry.
Qed.

(** On a trajectory of whole frames the reader gives the positions,
    the numbers of the atom types and the boxes, frame by frame. *)
Lemma load_xyzfile_frames (zeros : allocator) (N : nat)
  (frames : list frame_text) :
  allocates zeros (Z.of_nat N) ->
  trajectory_ok N frames ->
  load_xyzfile zeros (trajectory_text frames) =
  Some (Ok (map frame_positions frames,
            map (fun f => map (type_number
                                 (concat (map frame_types frames)))
                            (frame_types f)) frames,
            map (fun f => box_size (box f)) frames)).
Proof.
  intros Hz Hok. unfold trajectory_text.
  rewrite <- (app_nil_r (flat_map frame_bodies frames)).
  rewrite (load_xyzfile_through zeros N frames [] [] Hz Hok)
    by constructor.
  rewrite Nat.add_succ_r, app_nil_r. reflexivity.
Qed.

(** X15. On a machine with room for the arrays of a frame, the numbers
    the reader gives the atom types of a trajectory of whole frames are
    exactly [0 .. T-1], [T] the number of distinct
    atom types in the file: every number in the result is in that
    range, and every number of the range is the type of some particle
    of the result. *)
Theorem type_numbers_contiguous (zeros : allocator) (N : nat)
  (frames : list frame_text) :
  allocates zeros (Z.of_nat N) ->
  trajectory_ok N frames ->
  let T := Z.of_nat (length (distinct (concat (map frame_types frames)))) in
  exists trajectory atomtype_list boxsize_list,
    load_xyzfile zeros (trajectory_text frames) =
      Some (Ok (trajectory, atomtype_list, boxsize_list)) /\
    Forall (Forall (fun k => 0 <= k < T)) atomtype_list /\
    forall k, 0 <= k < T -> In k (concat atomtype_list).
Proof.
  intros Hz Hok T. eexists. eexists. eexists.
  split; [exact (load_xyzfile_frames zeros N frames Hz Hok)|].
  set (all := concat (map frame_types frames)) in *. split.
  - apply Forall_map, Forall_forall. intros f Hf.
    apply Forall_map, Forall_forall. intros t Ht.
    apply type_number_range. unfold all. apply in_concat.
    exists (frame_types f). split; [now apply in_map | exact Ht].
  - intros k Hk.
    destruct (type_number_onto all (Z.to_nat k)) as (t & Hin & E);
      [unfold T in Hk; lia|].
    rewrite Z2Nat.id in E by lia. rewrite <- E.
    unfold all in Hin. apply in_concat in Hin as (tys & Htys & Ht).
    apply in_map_iff in Htys as (f & <- & Hf).
    apply in_concat. exists (map (type_number all) (frame_types f)).
    split; [|now apply in_map].
    apply in_map_iff. now exists f.
Qed.

Lemma type_numbers_contiguous_witness :
  exists trajectory atomtype_list boxsize_list,
    load_xyzfile enough_memory (trajectory_text [example_frame]) =
      Some (Ok (trajectory, atomtype_list, boxsize_list)) /\
    Forall (Forall (fun k => 0 <= k < 2)) atomtype_list /\
    forall k, 0 <= k < 2 -> In k (concat atomtype_list).
Proof.
  exact (type_numbers_contiguous enough_memory 3 [example_frame]
           (fun _ => eq_refl) example_frame_ok).
Defined.

(** ** From the reader to [draw_atomic] *)



(** ** [draw_atomic]: indices from the end *)

Lemma valid_from_end (n : nat) (i : Z) :
  valid_index n i -> valid_index n (from_end n i).
Proof.
  unfold valid_index, from_end. intros H.
  destruct (Z.ltb_spec i 0); lia.
Qed.

Lemma np_get_from_end {A : Type} (l : list A) (i : Z) :
  valid_index (length l) i -> np_get l (from_end (length l) i) = np_get l i.
Proof.
  unfold valid_index, from_end. intros H.
  destruct (Z.ltb_spec i 0) as [Hneg|Hpos]; [|reflexivity].
  unfold np_get.
  destruct (Z.leb_spec 0 (i + Z.of_nat (length l))) as [_|?]; [|lia].
  destruct (Z.ltb_spec (i + Z.of_nat (length l)) (Z.of_nat (length l)))
    as [_|?]; [|lia].
  destruct (Z.leb_spec 0 i) as [?|_]; [lia|].
  destruct (Z.leb_spec (- Z.of_nat (length l)) i) as [_|?]; [|lia].
  destruct (Z.ltb_spec i 0) as [_|?]; [|lia].
  simpl. f_equal. lia.
Qed.

Lemma np_nth_from_end {A : Type} (d : A) (l : list A) (n : nat) (i : Z) :
  length l = n -> valid_index n i ->
  np_nth d l (from_end n i) = np_nth d l i.
Proof.
  intros <- H. unfold np_nth. now rewrite np_get_from_end.
Qed.

Lemma bond_lines_from_end (a : draw_args) (b : Z * Z) :
  args_fit a ->
  valid_index (length (configuration a)) (fst b) ->
  valid_index (length (configuration a)) (snd b) ->
  bond_lines a (bond_from_end (length (configuration a)) b) = bond_lines a b.
Proof.
  intros (Ht & Hr & Hc & _) Hi Hj. destruct b as [i j]. simpl in Hi, Hj.
  set (n := length (configuration a)) in *.
  unfold bond_lines, bond_from_end, cylinder_line, position. simpl fst.
  simpl snd.
  rewrite !(np_nth_from_end origin (configuration a) n) by auto.
  f_equal; [|f_equal; f_equal; f_equal].
  - unfold chosen_color, color_sources, color_line_from.
    destruct (color_value_list a) as [cv|]; simpl in *.
    + now rewrite (np_nth_from_end 0%float cv n).
    + destruct (color_list a) as [cl|]; simpl in *.
      * now rewrite (np_nth_from_end 0 cl n).
      * destruct (atomtypes a) as [tl|]; simpl in *; [|reflexivity].
        now rewrite (np_nth_from_end 0 tl n).
  - unfold chosen_radius, radius_sources, radius_from.
    destruct (radii a) as [r|]; simpl in *.
    + destruct (atomtypes a) as [tl|]; simpl in *.
      * now rewrite (np_nth_from_end 0 tl n).
      * destruct (radius_list a) as [rl|]; simpl in *; [|reflexivity].
        now rewrite (np_nth_from_end 0%float rl n).
    + destruct (radius_list a) as [rl|]; simpl in *; [|reflexivity].
      now rewrite (np_nth_from_end 0%float rl n).
Qed.

(** X17. The particles of a bond may be counted from the end: a call
    whose arguments fit writes the same lines when every negative index
    [i] of [bond_list] is replaced by [i + N], [N] the number of
    particles, so that the bond [(-1, 0)] joins the last particle and
    the first. *)
Theorem bonds_count_from_end (a : draw_args) (bl : list (Z * Z))
  (s : sock) :
  bond_list a = Some bl ->
  args_fit a -> segments_typed a -> usable s = true ->
  draw_atomic
    (with_bonds a
       (Some (map (bond_from_end (length (configuration a))) bl))) s =
  draw_atomic a s.
Proof.
  intros Hb Hfit Htyped Hs.
  set (n := length (configuration a)).
  set (a' := with_bonds a (Some (map (bond_from_end n) bl))).
  assert (Hvalid : Forall (fun b => valid_index n (fst b) /\
                                    valid_index n (snd b)) bl).
  { destruct Hfit as (_ & _ & _ & _ & H). now rewrite Hb in H. }
  assert (Hfit' : args_fit a').
  { destruct Hfit as (Ht & Hr & Hc & Hrad & _).
    split; [exact Ht|]. split; [exact Hr|]. split; [exact Hc|].
    split; [exact Hrad|].
    unfold a'. simpl. apply Forall_map.
    eapply Forall_impl; [|exact Hvalid].
    intros b [Hi Hj]. split; now apply valid_from_end. }
  assert (E : bonds_part a' = bonds_part a).
  { unfold bonds_part. rewrite Hb. unfold a'. simpl or_nil.
    rewrite !flat_map_concat_map, map_map. apply f_equal.
    apply map_ext_in. intros b Hin.
    rewrite Forall_forall in Hvalid. destruct (Hvalid b Hin) as [Hi Hj].
    exact (bond_lines_from_end a b Hfit Hi Hj). }
  rewrite (draw_atomic_sends a Hfit Htyped s Hs).
  rewrite (draw_atomic_sends a' Hfit' Htyped s Hs).
  rewrite E. reflexivity.
Qed.

Lemma bonds_count_from_end_witness :
  draw_atomic (with_bonds full_call (Some [(0, 1); (1, 0)]))
    (new_socket true) =
  draw_atomic full_call (new_socket true).
Proof.
  apply (bonds_count_from_end full_call [(0, 1); (-1, 0)] (new_socket true)
           eq_refl args_fit_full_call segments_typed_full_call eq_refl).
Defined.
